(** * dirac_webapp_packaging: the [build_extjs_sources] command

    A shallow embedding of [src/dirac_webapp_packaging/__init__.py]: the
    setuptools command that compiles the ExtJS sources of a DIRAC web
    application inside a container started with docker or singularity.

    The command object, the file system and the effects the command performs
    are threaded through a state-and-exception monad; everything the command
    reads from its surroundings (environment, search path, entry points,
    distribution metadata, user identity, child exit status) is a field of
    [World]. *)

From Stdlib Require Import Ascii.
From stdpp Require Import gmap strings list pretty.

Local Open Scope Z_scope.

(** ** Strings and paths *)

(** Python's [needle in hay] on strings. *)
Fixpoint str_contains (needle hay : string) : bool :=
  String.prefix needle hay ||
  match hay with
  | EmptyString => false
  | String _ hay' => str_contains needle hay'
  end.

(** [s.split("/")]: never empty, the segments between the slashes. *)
Fixpoint split_slash (s : string) : list string :=
  match s with
  | EmptyString => [EmptyString]
  | String c s' =>
      if Ascii.eqb c "/"%char then EmptyString :: split_slash s'
      else match split_slash s' with
           | [] => [String c EmptyString]
           | h :: t => String c h :: t
           end
  end.

(** A [pathlib.Path] is kept as its parts below the root. *)
Abbreviation Path := (list string).

Definition is_part (x : string) : bool :=
  negb (String.eqb x "") && negb (String.eqb x ".").

(** The parts of a relative path string: empty and [.] segments are dropped,
    as [pathlib] does when it parses. *)
Definition parts (s : string) : Path := List.filter is_part (split_slash s).

(** [p / s]: an absolute [s] replaces [p]. *)
Definition pjoin (p : Path) (s : string) : Path :=
  if String.prefix "/" s then parts s else p ++ parts s.

(** [str(p)] *)
Definition path_str (p : Path) : string :=
  match p with
  | [] => "/"
  | _ => foldr (λ c s, "/" +:+ c +:+ s) "" p
  end.

(** The directories [mkdir(parents=True)] has to find or make: [p] and all
    its ancestors below the root. *)
Definition with_parents (p : Path) : list Path :=
  (λ n, take n p) <$> seq 1 (length p).

(** ** Exceptions *)

(** The argument a [NotImplementedError] is raised with. *)
Inductive payload :=
| PStr (msg : string)
    (** a literal message *)
| PFmt (msg : string) (vals : list string)
    (** an f-string: literal text followed by the interpolated list *)
| PList (vals : list string).
    (** the list object itself *)

Inductive exn :=
| NotImplementedError (args : payload)
| CalledProcessError (returncode : Z) (cmd : list string)
| AttributeError (name : string)
| FileExistsError (p : Path)
| FileNotFoundError (p : Path).

(** ** Effects *)

Inductive event :=
| LogWarn (fmt : string) (args : list string)
| LogInfo (fmt : string) (args : list string)
| Which (exe : string)             (** [shutil.which(exe)] *)
| Load (module : string)           (** [entrypoint.load()()] *)
| MkTemp (p : Path)                (** [tempfile.TemporaryDirectory()] *)
| Mkdir (p : Path)                 (** [Path.mkdir] *)
| Spawn (cmd : list string).       (** [subprocess.check_call(cmd)] *)

(** ** The surroundings of the command *)

(** One entry of the [dirac] entry-point group. *)
Record EntryPoint := {
  ep_module : string;
    (** [entrypoint.module] *)
  ep_static : option (list string);
    (** [entrypoint.load()().get("web_resources", {}).get("static")] *)
  ep_module_path : Path;
    (** [Path(importlib.util.find_spec(entrypoint.module).origin).parent] *)
}.

Record World := {
  environ : gset string;               (** the keys of [os.environ] *)
  which : string → option string;      (** [shutil.which] *)
  entry_points : list EntryPoint;
    (** [importlib.metadata.entry_points().get('dirac', [])] *)
  packages : list string;              (** [self.distribution.packages] *)
  getcwd : string;                     (** [os.path.abspath(os.getcwd())] *)
  getuid : N;
  getgid : N;
  mkdtemp : Path;
    (** the directory [tempfile.TemporaryDirectory()] creates *)
  child_exit : list string → Z;
    (** the exit status of the child started with the given argv *)
}.

(** An attribute value of the command object. *)
Inductive value :=
| VStr (s : string)
| VTmpDir (name : Path).   (** a [tempfile.TemporaryDirectory] object *)

Record State := {
  attrs : gmap string value;   (** the instance attributes of [self] *)
  fs : gset Path;              (** the directories that exist *)
  trace : list event;          (** the effects performed so far *)
}.

(** ** The monad *)

Inductive result (A : Type) :=
| Ok (a : A)
| Raise (e : exn).
Arguments Ok {A} a.
Arguments Raise {A} e.

Definition M (A : Type) : Type := State → result A * State.

Definition ret {A} (a : A) : M A := λ st, (Ok a, st).

Definition raise {A} (e : exn) : M A := λ st, (Raise e, st).

Definition bind {A B} (m : M A) (k : A → M B) : M B :=
  λ st, match m st with
        | (Ok a, st') => k a st'
        | (Raise e, st') => (Raise e, st')
        end.

Notation "x <~ m ;; k" := (bind m (λ x, k))
  (at level 100, m at next level, right associativity).
Notation "m ;;; k" := (bind m (λ _, k))
  (at level 100, right associativity).

Definition set_trace (t : list event) (st : State) : State :=
  {| attrs := attrs st; fs := fs st; trace := t |}.

Definition set_fs (d : gset Path) (st : State) : State :=
  {| attrs := attrs st; fs := d; trace := trace st |}.

Definition set_attrs (a : gmap string value) (st : State) : State :=
  {| attrs := a; fs := fs st; trace := trace st |}.

Definition emit (ev : event) : M unit :=
  λ st, (Ok tt, set_trace (trace st ++ [ev]) st).

Definition log_warn (fmt : string) (args : list string) : M unit :=
  emit (LogWarn fmt args).

Definition log_info (fmt : string) (args : list string) : M unit :=
  emit (LogInfo fmt args).

Definition hasattr (name : string) : M bool :=
  λ st, (Ok (bool_decide (is_Some (attrs st !! name))), st).

Definition setattr (name : string) (v : value) : M unit :=
  λ st, (Ok tt, set_attrs (<[name := v]> (attrs st)) st).

Definition getattr (name : string) : M value :=
  λ st, match attrs st !! name with
        | Some v => (Ok v, st)
        | None => (Raise (AttributeError name), st)
        end.

Definition add_dirs (ps : list Path) : M unit :=
  λ st, (Ok tt, set_fs (list_to_set ps ∪ fs st) st).

(** [p.mkdir(parents=True, exist_ok=True)] *)
Definition mkdir_parents (p : Path) : M unit :=
  emit (Mkdir p) ;;; add_dirs (with_parents p).

(** [p.mkdir()] *)
Definition mkdir (p : Path) : M unit :=
  emit (Mkdir p) ;;;
  λ st, if bool_decide (p ∈ fs st) then (Raise (FileExistsError p), st)
        else if bool_decide (removelast p = [] ∨ removelast p ∈ fs st)
             then add_dirs [p] st
             else (Raise (FileNotFoundError p), st).

(** [tempfile.TemporaryDirectory()] *)
Definition TemporaryDirectory (w : World) : M Path :=
  emit (MkTemp (mkdtemp w)) ;;; add_dirs [mkdtemp w] ;;; ret (mkdtemp w).

(** [shutil.which(exe)] *)
Definition shutil_which (w : World) (exe : string) : M (option string) :=
  emit (Which exe) ;;; ret (which w exe).

(** [subprocess.check_call(cmd)] *)
Definition check_call (w : World) (cmd : list string) : M unit :=
  emit (Spawn cmd) ;;;
  if Z.eqb (child_exit w cmd) 0 then ret tt
  else raise (CalledProcessError (child_exit w cmd) cmd).

(** ** [build_extjs_sources] *)

Definition _docker_image : string := "diracgrid/dirac-distribution:latest".

Definition _available_exes : list string := ["docker"; "singularity"].

(** Inside the class body [self.__name] is the attribute
    [_build_extjs_sources__name]; the string given to [hasattr] is looked up
    as it is written. *)
Definition mangled__name : string := "_build_extjs_sources__name".

Definition as_str (v : value) : M string :=
  match v with
  | VStr s => ret s
  | VTmpDir _ => raise (AttributeError "str")
  end.

(** [[x for x in self.distribution.packages if "." not in x]] *)
Definition top_level (w : World) : list string :=
  List.filter (λ x, negb (str_contains "." x)) (packages w).

Definition _pkg_name (w : World) : M string :=
  has <~ hasattr "__name" ;;
  (if negb has then
     let pkgs := top_level w in
     if negb (Nat.eqb (length pkgs) 1) then
       raise (NotImplementedError (PFmt "Failed to find the package name: " pkgs))
     else setattr mangled__name (VStr (hd "" pkgs))
   else ret tt) ;;;
  v <~ getattr mangled__name ;;
  as_str v.

Definition _path (w : World) : M string := ret (getcwd w).

(** [_bind_mounts] is a generator; both of its callers drive it with a [for]
    loop.  The loop is embedded as a fold: [body name path acc] is the loop
    body run on one yielded pair, so the effects of the generator and of the
    body interleave as they do in Python.  Both callers only interpolate the
    yielded path into an f-string, so the [Path] of the first [yield] is
    passed on as its string. *)
Fixpoint _bind_mounts {A} (w : World) (eps : list EntryPoint)
    (body : string → string → A → M A) (acc : A) : M A :=
  match eps with
  | [] => ret acc
  | entrypoint :: rest =>
      pkg <~ _pkg_name w ;;
      if String.eqb pkg (ep_module entrypoint) then
        (* Don't consider the current package *)
        _bind_mounts w rest body acc
      else
        emit (Load (ep_module entrypoint)) ;;;
        match ep_static entrypoint with
        | Some ((d :: _) as static_dirs) =>
            let module_path := ep_module_path entrypoint in
            log_info "Found WebApp module %s at %s"
              [ep_module entrypoint; path_str module_path] ;;;
            acc <~ body (ep_module entrypoint) (path_str module_path) acc ;;
            if negb (Nat.eqb (length static_dirs) 1) then
              raise (NotImplementedError (PList static_dirs))
            else
              log_info "Mounting static directory %s" static_dirs ;;;
              mkdir_parents (module_path ++ ["WebApp"; "static"]) ;;;
              acc <~ body (ep_module entrypoint +:+ "/WebApp/static") d acc ;;
              _bind_mounts w rest body acc
        | _ => _bind_mounts w rest body acc
        end
  end.

Definition _docker_args (w : World) : M (list string) :=
  let cmd := ["run"; "--rm"] in
  cmd <~ _bind_mounts w (entry_points w)
           (λ name path cmd,
              ret (cmd ++ ["-v=" +:+ path +:+ ":/opt/" +:+ name +:+ ":ro"]))
           cmd ;;
  path <~ _path w ;;
  pkg1 <~ _pkg_name w ;;
  pkg2 <~ _pkg_name w ;;
  let cmd := cmd ++ ["-v=" +:+ path +:+ "/src/" +:+ pkg1 +:+ ":/opt/" +:+ pkg2] in
  ret (cmd ++ ["-w=/tmp";
               "-u=" +:+ pretty (getuid w) +:+ ":" +:+ pretty (getgid w);
               _docker_image;
               "/dirac-webapp-compile.py"]).

Definition _singularity_args (w : World) : M (list string) :=
  let cmd := ["run"; "--writable"; "--containall"] in
  t <~ TemporaryDirectory w ;;
  setattr "_tmpdir" (VTmpDir t) ;;;
  let tmpdir := t in
  let cmd := cmd ++ ["--bind=" +:+ path_str tmpdir +:+ ":/opt"] in
  (* Add any dependencies to the container *)
  cmd <~ _bind_mounts w (entry_points w)
           (λ name path cmd,
              mkdir_parents (pjoin tmpdir name) ;;;
              ret (cmd ++ ["--bind=" +:+ path +:+ ":/opt/" +:+ name +:+ ":ro"]))
           cmd ;;
  (* Add the current package to the container *)
  pkg <~ _pkg_name w ;;
  mkdir (pjoin tmpdir pkg) ;;;
  path <~ _path w ;;
  pkg1 <~ _pkg_name w ;;
  pkg2 <~ _pkg_name w ;;
  let cmd := cmd ++ ["--bind=" +:+ path +:+ "/src/" +:+ pkg1 +:+ ":/opt/" +:+ pkg2] in
  (* Add the remaining arguments *)
  ret (cmd ++ ["docker://" +:+ _docker_image; "/dirac-webapp-compile.py"]).

(** The [for self._exe in ...: ... break / else: raise] loop of [_cmd]. *)
Fixpoint find_exe (w : World) (exes : list string) : M string :=
  match exes with
  | [] => raise (NotImplementedError (PStr "Unable to find a suitable command"))
  | exe :: rest =>
      setattr "_exe" (VStr exe) ;;;
      full_exe <~ shutil_which w exe ;;
      match full_exe with
      | Some p => ret p
      | None => find_exe w rest
      end
  end.

Definition _cmd (w : World) : M (list string) :=
  full_exe <~ find_exe w _available_exes ;;
  let cmd := [full_exe] in
  v <~ getattr "_exe" ;;
  exe <~ as_str v ;;
  args <~ (if String.eqb exe "docker" then _docker_args w
           else if String.eqb exe "singularity" then _singularity_args w
           else raise (AttributeError ("_" +:+ exe +:+ "_args"))) ;;
  let cmd := cmd ++ args in
  pkg <~ _pkg_name w ;;
  ret (cmd ++ ["-D=/opt"; "-n=" +:+ pkg; "--py3-style"]).

(** [shlex.join(cmd)] is logged as the vector it renders. *)
Definition run (w : World) : M unit :=
  if bool_decide ("DIRAC_WEBAPP_NO_COMPILE" ∈ environ w) then
    log_warn "Skipping webapp compilation as DIRAC_WEBAPP_NO_COMPILE is set" []
  else
    cmd <~ _cmd w ;;
    log_info "> %s" cmd ;;;
    check_call w cmd.

(** ** The mount plan

    The command never builds the plan as a value: it renders each binding
    into a flag as the generator yields it.  The definitions below name what
    is rendered, so that the two argument vectors can be compared. *)

Record MountBinding := {
  container_path : string;   (** below [/opt] *)
  host_path : string;
  read_only : bool;
}.

(** The entries [_bind_mounts] yields for: not the package under build, and
    a non-empty [static] list. *)
Definition contributes (pkg : string) (ep : EntryPoint) : bool :=
  negb (String.eqb pkg (ep_module ep)) &&
  match ep_static ep with
  | Some (_ :: _) => true
  | _ => false
  end.

Definition contributions (pkg : string) (w : World) : list EntryPoint :=
  List.filter (contributes pkg) (entry_points w).

(** What one entry yields, given a reading [g name path] of a yielded pair. *)
Definition yields_of {B} (g : string → string → B) (ep : EntryPoint) : list B :=
  match ep_static ep with
  | Some (d :: _) =>
      [g (ep_module ep) (path_str (ep_module_path ep));
       g (ep_module ep +:+ "/WebApp/static") d]
  | _ => []
  end.

Definition ro_binding (name path : string) : MountBinding :=
  {| container_path := name; host_path := path; read_only := true |}.

Definition self_binding (w : World) (pkg : string) : MountBinding :=
  {| container_path := pkg;
     host_path := getcwd w +:+ "/src/" +:+ pkg;
     read_only := false |}.

Definition mount_plan (w : World) (pkg : string) : list MountBinding :=
  flat_map (yields_of ro_binding) (contributions pkg w) ++ [self_binding w pkg].

(** The flag a binding is rendered to: [opt] is [-v=] or [--bind=]. *)
Definition bind_flag (opt : string) (b : MountBinding) : string :=
  opt +:+ host_path b +:+ ":/opt/" +:+ container_path b +:+
  (if read_only b then ":ro" else "").

Definition docker_tail (w : World) : list string :=
  ["-w=/tmp";
   "-u=" +:+ pretty (getuid w) +:+ ":" +:+ pretty (getgid w);
   _docker_image;
   "/dirac-webapp-compile.py"].

Definition singularity_tail : list string :=
  ["docker://" +:+ _docker_image; "/dirac-webapp-compile.py"].

(** The bind mounts an argument vector asks for: the arguments that start
    with [opt], without it. *)
Fixpoint strip (opt s : string) : option string :=
  match opt, s with
  | EmptyString, _ => Some s
  | String a opt', String b s' => if Ascii.eqb a b then strip opt' s' else None
  | String _ _, EmptyString => None
  end.

Definition bind_specs (opt : string) (args : list string) : list string :=
  omap (strip opt) args.

(** The mount plan as the specification words it: one read-only binding per
    contribution, at [<module>/WebApp/static], and the binding of the package
    itself.  Kept apart from [mount_plan] for comparison. *)
Definition spec_mount_plan (w : World) (pkg : string) : list MountBinding :=
  flat_map (λ ep, match ep_static ep with
                  | Some (d :: _) => [ro_binding (ep_module ep +:+ "/WebApp/static") d]
                  | _ => []
                  end) (contributions pkg w)
  ++ [self_binding w pkg].

(** ** Conditions on the surroundings *)

(** Nothing sets an attribute that is literally called [__name]. *)
Definition unnamed (st : State) : Prop := attrs st !! "__name" = None.

(** The state once [_pkg_name] has stored the name. *)
Definition named (pkg : string) (st : State) : State :=
  set_attrs (<[mangled__name := VStr pkg]> (attrs st)) st.

(** The entry declares exactly one static directory. *)
Definition single_static (ep : EntryPoint) : Prop :=
  ∃ d, ep_static ep = Some [d].

(** A module or package name is one path segment: it has no slash and is
    neither empty nor a dot. *)
Definition plain_name (s : string) : Prop := parts s = [s] ∧ String.prefix "/" s = false.

(** [tempfile] hands out a new directory: nothing that exists lies in it, and
    none of the directories the plugins own does. *)
Definition fresh_staging (w : World) (st : State) : Prop :=
  (∀ p, p ∈ fs st → ¬ mkdtemp w `prefix_of` p) ∧
  Forall (λ ep, ¬ mkdtemp w `prefix_of` ep_module_path ep ++ ["WebApp"; "static"])
         (entry_points w).

(** The staging directory exists and the placeholder of the package is still
    to be made. *)
Definition staged (tmp : Path) (pkg : string) (st : State) : Prop :=
  unnamed st ∧ tmp ∈ fs st ∧ tmp ++ [pkg] ∉ fs st.

(** The state [find_exe] leaves when it stops at [exe] after probing
    [probed]. *)
Definition selected (exe : string) (probed : list string) (st : State) : State :=
  set_trace (trace st ++ (Which <$> probed))
    (set_attrs (<["_exe" := VStr exe]> (attrs st)) st).

(** [m] keeps [P], whether it returns or raises. *)
Definition keeps (P : State → Prop) {A} (m : M A) : Prop :=
  ∀ st, P st → P (snd (m st)).

(** An event is in the trace. *)
Definition logged (ev : event) (st : State) : Prop := ev ∈ trace st.

(** The line the generator logs for an entry that declares static
    directories, before it yields the module. *)
Definition found_line (ep : EntryPoint) : event :=
  LogInfo "Found WebApp module %s at %s"
    [ep_module ep; path_str (ep_module_path ep)].

(** The staging directory exists and the command object holds it. *)
Definition held (tmp : Path) (st : State) : Prop :=
  tmp ∈ fs st ∧ attrs st !! "_tmpdir" = Some (VTmpDir tmp).

(** The loop body appends the reading [g name path] of the yielded pair and
    keeps the invariant [Inv]. *)
Definition body_ok {B} (Inv : State → Prop) (g : string → string → B)
    (body : string → string → list B → M (list B)) (name : string) : Prop :=
  ∀ path acc st, Inv st →
    ∃ st', body name path acc st = (Ok (acc ++ [g name path]), st') ∧ Inv st'.

(** What the loop needs of an entry it yields for. *)
Definition passable {B} (Inv : State → Prop) (g : string → string → B)
    (body : string → string → list B → M (list B)) (ep : EntryPoint) : Prop :=
  body_ok Inv g body (ep_module ep) ∧
  body_ok Inv g body (ep_module ep +:+ "/WebApp/static") ∧
  ∀ st, Inv st →
    Inv (set_fs (list_to_set (with_parents (ep_module_path ep ++ ["WebApp"; "static"]))
                   ∪ fs st) st).

(** The strings an exception carries. *)
Definition payload_text (e : exn) : list string :=
  match e with
  | NotImplementedError (PStr msg) => [msg]
  | NotImplementedError (PFmt msg vals) => msg :: vals
  | NotImplementedError (PList vals) => vals
  | CalledProcessError _ cmd => cmd
  | AttributeError name => [name]
  | FileExistsError p => [path_str p]
  | FileNotFoundError p => [path_str p]
  end.

(** The exception mentions the plugin somewhere in what it carries. *)
Definition names_plugin (e : exn) (plugin : string) : bool :=
  existsb (str_contains plugin) (payload_text e).

(** ** Concrete installations *)

(** A host on which the executables [exes] are found in [/usr/bin], and the
    child exits with [code]. *)
Definition host (exes : list string) (eps : list EntryPoint) (pkgs : list string)
    (env : gset string) (code : Z) : World :=
  {| environ := env;
     which := λ exe, if bool_decide (exe ∈ exes) then Some ("/usr/bin/" +:+ exe)
                     else None;
     entry_points := eps;
     packages := pkgs;
     getcwd := "/repo";
     getuid := 1000;
     getgid := 1000;
     mkdtemp := ["tmp"; "tmpq1w2e3"];
     child_exit := λ _, code |}.

Definition pluginA : EntryPoint :=
  {| ep_module := "pluginA";
     ep_static := Some ["/host/a/static"];
     ep_module_path := ["site"; "pluginA"] |}.

Definition pluginB : EntryPoint :=
  {| ep_module := "pluginB";
     ep_static := Some ["/host/b/static"];
     ep_module_path := ["site"; "pluginB"] |}.

(** A plugin without web resources. *)
Definition pluginC : EntryPoint :=
  {| ep_module := "pluginC";
     ep_static := None;
     ep_module_path := ["site"; "pluginC"] |}.

(** The entry of the package under build. *)
Definition own_entry : EntryPoint :=
  {| ep_module := "mypkg";
     ep_static := Some ["/repo/src/mypkg/WebApp/static"];
     ep_module_path := ["repo"; "src"; "mypkg"] |}.

(** A plugin that declares two static directories. *)
Definition plugin_two (name : string) : EntryPoint :=
  {| ep_module := name;
     ep_static := Some ["/srv/www/static"; "/srv/www/extra"];
     ep_module_path := ["site"; name] |}.

Definition init : State := {| attrs := ∅; fs := ∅; trace := [] |}.

Definition mypkg_packages : list string := ["mypkg"; "mypkg.WebApp"].

Definition docker_host : World :=
  host ["docker"; "singularity"] [pluginA] mypkg_packages ∅ 0.

Definition singularity_host (code : Z) : World :=
  host ["singularity"] [pluginA] mypkg_packages ∅ code.

Definition many_plugins : World :=
  host ["docker"] [pluginA; own_entry; pluginC; pluginB] mypkg_packages ∅ 0.

Definition skipping_host : World :=
  host ["docker"] [pluginA] mypkg_packages {["DIRAC_WEBAPP_NO_COMPILE"]} 0.

Definition two_dirs_host (name : string) : World :=
  host ["docker"] [pluginB; plugin_two name; pluginA] mypkg_packages ∅ 0.

(** ** Conditions on the effects *)

Definition is_spawn (ev : event) : bool :=
  match ev with Spawn _ => true | _ => false end.

Definition is_mktemp (ev : event) : bool :=
  match ev with MkTemp _ => true | _ => false end.

(** No event of the trace is one of [bad]. *)
Definition without (bad : event → bool) (t : list event) : Prop :=
  Forall (λ ev, bad ev = false) t.

(** A condition on the trace together with one on the attributes. *)
Definition framed (TP : list event → Prop) (AP : gmap string value → Prop)
    (st : State) : Prop :=
  TP (trace st) ∧ AP (attrs st).

(** Every run of the generator for [w] keeps [P], if the loop body does. *)
Definition loop_keeps (P : State → Prop) (w : World) : Prop :=
  ∀ A eps (body : string → string → A → M A) acc,
    (∀ name path acc, keeps P (body name path acc)) →
    keeps P (_bind_mounts w eps body acc).

(** The directory exists; the root always does. *)
Definition is_dir (st : State) (p : Path) : Prop := p = [] ∨ p ∈ fs st.

(** ** [find_data_files] *)

(** The root of a POSIX path string: exactly two leading slashes are kept as
    they are, one slash or three and more make the root [/], and a string
    that starts with no slash has no root. *)
Definition root_of (s : string) : string :=
  if String.prefix "///" s then "/"
  else if String.prefix "//" s then "//"
  else if String.prefix "/" s then "/"
  else "".

(** A [pathlib.Path] that may be relative: its root, empty for a relative
    path, and its parts below it. *)
Record PurePath := {
  root : string;
  segments : list string;
}.

(** [Path(s)] *)
Definition Path_of (s : string) : PurePath :=
  {| root := root_of s; segments := parts s |}.

(** [str(p)] *)
Definition str_of (p : PurePath) : string :=
  match root p, segments p with
  | EmptyString, [] => "."
  | r, segs => r +:+ String.concat "/" segs
  end.

(** [p / rel] for the relative parts [rel]. *)
Definition under (p : PurePath) (rel : list string) : PurePath :=
  {| root := root p; segments := segments p ++ rel |}.

(** [p.parent] *)
Definition parent (p : PurePath) : PurePath :=
  {| root := root p; segments := removelast (segments p) |}.

(** A [dict] from strings to lists of strings, in insertion order. *)
Abbreviation dict := (list (string * list string)).

(** [k in d] and [d[k]] of a plain [dict]. *)
Fixpoint dict_lookup (k : string) (d : dict) : option (list string) :=
  match d with
  | [] => None
  | (k', v) :: d' => if String.eqb k k' then Some v else dict_lookup k d'
  end.

(** [d[k] = v]: a present key keeps its place. *)
Fixpoint dict_set (k : string) (v : list string) (d : dict) : dict :=
  match d with
  | [] => [(k, v)]
  | (k', v') :: d' =>
      if String.eqb k k' then (k', v) :: d' else (k', v') :: dict_set k v d'
  end.

(** [d.update(other)], for a mapping or a list of pairs. *)
Definition dict_update (d other : dict) : dict :=
  foldl (λ d kv, dict_set kv.1 kv.2 d) d other.

(** [d[k]] of a [defaultdict(list)]: a missing key is inserted with a new
    empty list. *)
Definition getitem_default (k : string) (d : dict) : list string * dict :=
  match dict_lookup k d with
  | Some v => (v, d)
  | None => ([], d ++ [(k, [])])
  end.

(** [d[k] += xs] of a [defaultdict(list)], on the values of the lists: the
    list under [k] ends with [xs] afterwards, and a list that is held under
    [k] alone, as is every list the [defaultdict] made, changes under no
    other key. *)
Definition iadd_item (k : string) (xs : list string) (d : dict) : dict :=
  let '(v, d') := getitem_default k d in dict_set k (v ++ xs) d'.

(** [tree] is what [source_dir.glob("**/*")] yields, in its order: each
    descendant as its parts relative to [source_dir], with [is_file()]. *)
Definition find_data_files (tree : list (list string * bool))
    (source_dir dest_dir : string) (start : option dict) : dict :=
  let data_files := dict_update [] (default [] start) in
  let source_dir := Path_of source_dir in
  let dest_dir := Path_of dest_dir in
  foldl (λ (data_files : dict) (entry : list string * bool),
           let source_fn := under source_dir entry.1 in
           if entry.2 then
             let destination_fn := under dest_dir entry.1 in
             iadd_item (str_of (parent destination_fn)) [str_of source_fn] data_files
           else data_files)
        data_files tree.

(** The key a file is listed under, and the name it is listed with. *)
Definition dest_key (dest_dir : string) (rel : list string) : string :=
  str_of (parent (under (Path_of dest_dir) rel)).

Definition source_name (source_dir : string) (rel : list string) : string :=
  str_of (under (Path_of source_dir) rel).

(** The files of [tree] that are listed under [k]. *)
Definition files_under (tree : list (list string * bool))
    (source_dir dest_dir k : string) : list string :=
  source_name source_dir <$>
    (List.filter (λ rel, String.eqb (dest_key dest_dir rel) k)
       (fst <$> List.filter snd tree)).

(** A value extended by [xs]; a key that gets nothing stays absent. *)
Definition extended (o : option (list string)) (xs : list string)
  : option (list string) :=
  match o, xs with
  | Some v, _ => Some (v ++ xs)
  | None, [] => None
  | None, _ => Some xs
  end.


(** The keys in the order in which they are first met. *)
Definition add_key (seen : list string) (k : string) : list string :=
  if bool_decide (k ∈ seen) then seen else seen ++ [k].

Definition first_seen (ks : list string) : list string := foldl add_key [] ks.

(** The number of names a dictionary lists. *)
Definition listed (d : dict) : nat := length (concat d.*2).

(** One turn of the loop of [find_data_files]. *)
Definition listing_step (source_dir dest_dir : string) (data_files : dict)
    (entry : list string * bool) : dict :=
  if entry.2 then
    iadd_item (dest_key dest_dir entry.1) [source_name source_dir entry.1] data_files
  else data_files.

(** A source tree: a directory, two files in it and one file beside it. *)
Definition static_tree : list (list string * bool) :=
  [(["js"], false); (["js"; "app.js"], true); (["index.html"], true);
   (["js"; "boot.js"], true); (["img"], false)].

Definition earlier_files : dict := [("share/www", ["LICENSE"])].

(** ** Stepping through the monad *)

Lemma bind_Ok {A B} (m : M A) (k : A → M B) st a st' :
  m st = (Ok a, st') → bind m k st = k a st'.
Proof. intros H. unfold bind. by rewrite H. Qed.

Lemma bind_Raise {A B} (m : M A) (k : A → M B) st e st' :
  m st = (Raise e, st') → bind m k st = (Raise e, st').
Proof. intros H. unfold bind. by rewrite H. Qed.

Lemma bind_emit {B} ev (k : unit → M B) st :
  bind (emit ev) k st = k tt (set_trace (trace st ++ [ev]) st).
Proof. reflexivity. Qed.

Lemma bind_ret {A B} (a : A) (k : A → M B) st : bind (ret a) k st = k a st.
Proof. reflexivity. Qed.

Lemma mkdir_parents_eq p st :
  mkdir_parents p st =
  (Ok tt, set_fs (list_to_set (with_parents p) ∪ fs st)
            (set_trace (trace st ++ [Mkdir p]) st)).
Proof. reflexivity. Qed.

(** ** Strings *)

Lemma append_cons a s t : String a s +:+ t = String a (s +:+ t).
Proof. reflexivity. Qed.

Lemma append_nil_l s : "" +:+ s = s.
Proof. reflexivity. Qed.

Lemma append_nil_r s : s +:+ "" = s.
Proof. induction s as [|a s IH]; [done|]. by rewrite append_cons, IH. Qed.

Lemma append_assoc s1 s2 s3 : (s1 +:+ s2) +:+ s3 = s1 +:+ s2 +:+ s3.
Proof. induction s1 as [|a s1 IH]; [done|]. by rewrite !append_cons, IH. Qed.

Lemma length_append s1 s2 :
  String.length (s1 +:+ s2) = (String.length s1 + String.length s2)%nat.
Proof.
  induction s1 as [|a s1 IH]; [done|]. rewrite append_cons. simpl. by rewrite IH.
Qed.

Lemma append_inj_l s1 s2 s : s1 +:+ s = s2 +:+ s → s1 = s2.
Proof.
  revert s2. induction s1 as [|a s1 IH]; intros [|b s2] H.
  - done.
  - apply (f_equal String.length) in H.
    rewrite append_nil_l, append_cons in H. simpl in H.
    rewrite length_append in H. lia.
  - apply (f_equal String.length) in H.
    rewrite append_nil_l, append_cons in H. simpl in H.
    rewrite length_append in H. lia.
  - rewrite !append_cons in H. injection H as -> H. f_equal. by apply IH.
Qed.

Lemma split_slash_nonempty s : split_slash s ≠ [].
Proof.
  destruct s as [|c s]; simpl; [done|].
  destruct (Ascii.eqb c "/"); [done|]. by destruct (split_slash s).
Qed.

Lemma split_slash_app s1 s2 :
  split_slash (s1 +:+ String "/" s2) = split_slash s1 ++ split_slash s2.
Proof.
  induction s1 as [|c s1 IH]; [done|]. rewrite append_cons. simpl.
  destruct (Ascii.eqb c "/"); simpl; [by rewrite IH|].
  rewrite IH. destruct (split_slash s1) eqn:E; [|done].
  by destruct (split_slash_nonempty s1).
Qed.

Lemma parts_app s1 s2 : parts (s1 +:+ String "/" s2) = parts s1 ++ parts s2.
Proof. unfold parts. by rewrite split_slash_app, List.filter_app. Qed.

Lemma prefix_slash_app s1 s2 :
  String.prefix "/" s1 = false → s1 ≠ "" → String.prefix "/" (s1 +:+ s2) = false.
Proof.
  assert (∀ c s, String.prefix "/" (String c s)
                 = if ascii_dec "/" c then true else false) as E.
  { intros c s. cbn [String.prefix]. destruct (ascii_dec _ _); [by destruct s|done]. }
  destruct s1 as [|c s1]; [done|]. rewrite append_cons, !E. done.
Qed.

Lemma plain_name_nonempty s : plain_name s → s ≠ "".
Proof. intros [H _] ->. vm_compute in H. discriminate H. Qed.

Lemma pjoin_plain p s : plain_name s → pjoin p s = p ++ [s].
Proof. intros [H1 H2]. unfold pjoin. by rewrite H2, H1. Qed.

Lemma pjoin_plain_static p s :
  plain_name s → pjoin p (s +:+ "/WebApp/static") = p ++ [s; "WebApp"; "static"].
Proof.
  intros Hs. unfold pjoin.
  rewrite prefix_slash_app by (try apply Hs; by apply plain_name_nonempty).
  destruct Hs as [H1 _]. by rewrite parts_app, H1.
Qed.

(** A plain name is no container path of a static directory. *)
Lemma plain_name_not_static s m : plain_name s → s ≠ m +:+ "/WebApp/static".
Proof.
  intros [H _] ->. rewrite parts_app in H.
  apply (f_equal length) in H. rewrite length_app in H. simpl in H.
  destruct (parts m); simpl in H; lia.
Qed.

(** ** Paths *)

Lemma elem_of_with_parents q p :
  q ∈ with_parents p → q ≠ [] ∧ q `prefix_of` p.
Proof.
  unfold with_parents. intros (n & -> & Hn)%list_elem_of_fmap.
  apply elem_of_seq in Hn. split; [|apply prefix_take].
  intros E%(f_equal length). rewrite length_take in E. simpl in E. lia.
Qed.

(** ** The package name *)

Lemma unnamed_named pkg st : unnamed st → unnamed (named pkg st).
Proof. unfold unnamed, named. simpl. intros H. by rewrite lookup_insert_ne. Qed.

Lemma unnamed_set_trace t st : unnamed st → unnamed (set_trace t st).
Proof. done. Qed.

Lemma pkg_name_ok w pkg st :
  unnamed st → top_level w = [pkg] → _pkg_name w st = (Ok pkg, named pkg st).
Proof.
  intros Hst Hpkg. unfold _pkg_name, bind, hasattr, getattr, setattr.
  rewrite Hst, Hpkg. simpl. by rewrite lookup_insert_eq.
Qed.

Lemma pkg_name_fail w st :
  unnamed st → length (top_level w) ≠ 1%nat →
  _pkg_name w st =
  (Raise (NotImplementedError
            (PFmt "Failed to find the package name: " (top_level w))), st).
Proof.
  intros Hst Hlen. unfold _pkg_name, bind, hasattr. rewrite Hst. simpl.
  destruct (Nat.eqb_spec (length (top_level w)) 1); [done|]. reflexivity.
Qed.

(** Without exactly one top-level package the generator stops at its first
    entry, and both callers raise the error that lists the candidates. *)
Lemma bind_mounts_unresolved {A} w eps (body : string → string → A → M A) acc st :
  unnamed st → length (top_level w) ≠ 1%nat →
  _bind_mounts w eps body acc st =
  match eps with
  | [] => (Ok acc, st)
  | _ :: _ =>
      (Raise (NotImplementedError
                (PFmt "Failed to find the package name: " (top_level w))), st)
  end.
Proof.
  intros Hst Hlen. destruct eps as [|ep eps]; [done|]. cbn [_bind_mounts].
  by rewrite (bind_Raise _ _ _ _ _ (pkg_name_fail w st Hst Hlen)).
Qed.

Lemma docker_args_unresolved w st :
  unnamed st → length (top_level w) ≠ 1%nat →
  (_docker_args w st).1 =
  Raise (NotImplementedError
           (PFmt "Failed to find the package name: " (top_level w))).
Proof.
  intros Hst Hlen. unfold _docker_args. unfold bind at 1.
  rewrite (bind_mounts_unresolved w _ _ _ st Hst Hlen).
  destruct (entry_points w); [|done]. unfold _path. rewrite bind_ret.
  by rewrite (bind_Raise _ _ _ _ _ (pkg_name_fail w st Hst Hlen)).
Qed.

Lemma singularity_args_unresolved w st :
  unnamed st → length (top_level w) ≠ 1%nat →
  (_singularity_args w st).1 =
  Raise (NotImplementedError
           (PFmt "Failed to find the package name: " (top_level w))).
Proof.
  intros Hst Hlen. unfold _singularity_args.
  rewrite (bind_Ok _ _ _ _ _ (eq_refl : TemporaryDirectory w st = (_, _))).
  unfold setattr at 1. unfold bind at 1. unfold bind at 1.
  match goal with |- context [_bind_mounts w _ ?b ?a ?s] =>
    assert (unnamed s) as Hs by (unfold unnamed in *; simpl;
                                 by rewrite lookup_insert_ne);
    rewrite (bind_mounts_unresolved w _ b a s Hs Hlen);
    destruct (entry_points w); [|done];
    by rewrite (bind_Raise _ _ _ _ _ (pkg_name_fail w s Hs Hlen))
  end.
Qed.

(** ** The generator, driven by a loop body that cannot fail *)

Section Generator.
Context {B : Type}.
Variables (w : World) (pkg : string).
Variable Inv : State → Prop.
Variable g : string → string → B.
Variable body : string → string → list B → M (list B).

Hypothesis Hpkg : top_level w = [pkg].
Hypothesis Inv_unnamed : ∀ st, Inv st → unnamed st.
Hypothesis Inv_named : ∀ st, Inv st → Inv (named pkg st).
Hypothesis Inv_trace : ∀ t st, Inv st → Inv (set_trace t st).

Lemma bind_mounts_skip ep rest acc st :
  Inv st → contributes pkg ep = false →
  ∃ st', Inv st' ∧
    _bind_mounts w (ep :: rest) body acc st = _bind_mounts w rest body acc st'.
Proof.
  intros Hst Hc. simpl.
  rewrite (bind_Ok _ _ _ _ _ (pkg_name_ok w pkg st (Inv_unnamed _ Hst) Hpkg)).
  unfold contributes in Hc.
  destruct (String.eqb pkg (ep_module ep)); [eauto|].
  rewrite bind_emit. simpl in Hc.
  destruct (ep_static ep) as [[|d ds]|]; [|done|]; eauto.
Qed.

Lemma bind_mounts_step ep rest acc st :
  Inv st → contributes pkg ep = true → single_static ep →
  passable Inv g body ep →
  ∃ st', Inv st' ∧
    _bind_mounts w (ep :: rest) body acc st =
    _bind_mounts w rest body (acc ++ yields_of g ep) st'.
Proof.
  intros Hst Hc [d Hd] (Hb1 & Hb2 & Hmk).
  apply andb_true_iff in Hc as [Hne _]. apply negb_true_iff in Hne.
  cbn [_bind_mounts].
  rewrite (bind_Ok _ _ _ _ _ (pkg_name_ok w pkg st (Inv_unnamed _ Hst) Hpkg)).
  rewrite Hne, bind_emit, Hd. unfold log_info. rewrite bind_emit.
  edestruct (Hb1 (path_str (ep_module_path ep)) acc) as (st1 & E1 & Hst1).
  { apply Inv_trace, Inv_trace, Inv_named, Hst. }
  rewrite (bind_Ok _ _ _ _ _ E1).
  cbn [length Nat.eqb negb]. rewrite bind_emit.
  rewrite (bind_Ok _ _ _ _ _ (mkdir_parents_eq _ _)).
  edestruct (Hb2 d (acc ++ [g (ep_module ep) (path_str (ep_module_path ep))]))
    as (st2 & E2 & Hst2).
  { apply Hmk, Inv_trace, Inv_trace, Hst1. }
  rewrite (bind_Ok _ _ _ _ _ E2).
  exists st2. split; [done|]. unfold yields_of. rewrite Hd.
  by rewrite <- app_assoc.
Qed.

Lemma bind_mounts_ok eps :
  Forall single_static (List.filter (contributes pkg) eps) →
  Forall (passable Inv g body) (List.filter (contributes pkg) eps) →
  ∀ acc st, Inv st →
    ∃ st', _bind_mounts w eps body acc st =
             (Ok (acc ++ flat_map (yields_of g) (List.filter (contributes pkg) eps)), st')
           ∧ Inv st'.
Proof.
  induction eps as [|ep rest IH]; intros Hone Hpass acc st Hst.
  { exists st. simpl. by rewrite app_nil_r. }
  simpl in Hone, Hpass. cbn [List.filter]. destruct (contributes pkg ep) eqn:Hc.
  - apply Forall_cons in Hone as [Hd Hone].
    apply Forall_cons in Hpass as [Hp Hpass].
    destruct (bind_mounts_step ep rest acc st Hst Hc Hd Hp) as (st1 & Hst1 & ->).
    cbn [flat_map]. rewrite app_assoc. by apply IH.
  - destruct (bind_mounts_skip ep rest acc st Hst Hc) as (st1 & Hst1 & ->).
    by apply IH.
Qed.

(** The first entry with two or more static directories ends the loop. *)
Lemma bind_mounts_fail pre ep post d1 d2 ds :
  Forall single_static (List.filter (contributes pkg) pre) →
  Forall (passable Inv g body) (List.filter (contributes pkg) pre) →
  contributes pkg ep = true →
  ep_static ep = Some (d1 :: d2 :: ds) →
  body_ok Inv g body (ep_module ep) →
  ∀ acc st, Inv st →
    ∃ st', _bind_mounts w (pre ++ ep :: post) body acc st =
             (Raise (NotImplementedError (PList (d1 :: d2 :: ds))), st')
           ∧ Inv st'.
Proof.
  intros Hone Hpass Hc Hd Hb.
  induction pre as [|e pre IH]; intros acc st Hst.
  - apply andb_true_iff in Hc as [Hne _]. apply negb_true_iff in Hne.
    cbn [app _bind_mounts].
    rewrite (bind_Ok _ _ _ _ _ (pkg_name_ok w pkg st (Inv_unnamed _ Hst) Hpkg)).
    rewrite Hne, bind_emit, Hd. unfold log_info. rewrite bind_emit.
    edestruct (Hb (path_str (ep_module_path ep)) acc) as (st1 & E1 & Hst1).
    { apply Inv_trace, Inv_trace, Inv_named, Hst. }
    rewrite (bind_Ok _ _ _ _ _ E1). eauto.
  - simpl in Hone, Hpass. rewrite <- app_comm_cons.
    destruct (contributes pkg e) eqn:Hce.
    + apply Forall_cons in Hone as [Hd1 Hone].
      apply Forall_cons in Hpass as [Hp1 Hpass].
      destruct (bind_mounts_step e (pre ++ ep :: post) acc st Hst Hce Hd1 Hp1)
        as (st1 & Hst1 & ->).
      by apply IH.
    + destruct (bind_mounts_skip e (pre ++ ep :: post) acc st Hst Hce)
        as (st1 & Hst1 & ->).
      by apply IH.
Qed.

(** When the loop ends so, the line that names the entry has been logged. *)
Lemma bind_mounts_fail_logged pre ep post d1 d2 ds :
  Forall single_static (List.filter (contributes pkg) pre) →
  Forall (passable Inv g body) (List.filter (contributes pkg) pre) →
  contributes pkg ep = true →
  ep_static ep = Some (d1 :: d2 :: ds) →
  body_ok Inv g body (ep_module ep) →
  (∀ ev name path acc, keeps (logged ev) (body name path acc)) →
  ∀ acc st, Inv st →
    ∃ st', _bind_mounts w (pre ++ ep :: post) body acc st =
             (Raise (NotImplementedError (PList (d1 :: d2 :: ds))), st')
           ∧ logged (found_line ep) st'.
Proof.
  intros Hone Hpass Hc Hd Hb Hk.
  induction pre as [|e pre IH]; intros acc st Hst.
  - apply andb_true_iff in Hc as [Hne _]. apply negb_true_iff in Hne.
    cbn [app _bind_mounts].
    rewrite (bind_Ok _ _ _ _ _ (pkg_name_ok w pkg st (Inv_unnamed _ Hst) Hpkg)).
    rewrite Hne, bind_emit, Hd. unfold log_info. rewrite bind_emit.
    match goal with |- context [bind (body ?n ?p ?a) _ ?s0] =>
      pose proof (Hk (found_line ep) n p a s0) as Hl;
      destruct (Hb p a s0) as (st1 & E1 & Hst1)
    end.
    { apply Inv_trace, Inv_trace, Inv_named, Hst. }
    rewrite E1 in Hl. rewrite (bind_Ok _ _ _ _ _ E1).
    eexists. split; [done|]. apply Hl.
    unfold logged, found_line. simpl. apply elem_of_app. right. by left.
  - simpl in Hone, Hpass. rewrite <- app_comm_cons.
    destruct (contributes pkg e) eqn:Hce.
    + apply Forall_cons in Hone as [Hd1 Hone].
      apply Forall_cons in Hpass as [Hp1 Hpass].
      destruct (bind_mounts_step e (pre ++ ep :: post) acc st Hst Hce Hd1 Hp1)
        as (st1 & Hst1 & ->).
      by apply IH.
    + destruct (bind_mounts_skip e (pre ++ ep :: post) acc st Hst Hce)
        as (st1 & Hst1 & ->).
      by apply IH.
Qed.
End Generator.

(** ** The docker variant *)

Lemma flat_map_yields_of {B C} (f : B → C) (g : string → string → B) eps :
  flat_map (yields_of (λ name path, f (g name path))) eps
  = f <$> flat_map (yields_of g) eps.
Proof.
  induction eps as [|ep eps IH]; [done|]. cbn [flat_map].
  rewrite fmap_app, IH. f_equal. unfold yields_of.
  by destruct (ep_static ep) as [[|d ds]|].
Qed.

Lemma self_flag opt w pkg :
  opt +:+ getcwd w +:+ "/src/" +:+ pkg +:+ ":/opt/" +:+ pkg
  = bind_flag opt (self_binding w pkg).
Proof.
  unfold bind_flag, self_binding. simpl.
  by rewrite !append_assoc, append_nil_r.
Qed.

Lemma docker_args_ok w pkg st :
  unnamed st → top_level w = [pkg] →
  Forall single_static (contributions pkg w) →
  ∃ st', _docker_args w st =
           (Ok (["run"; "--rm"] ++ (bind_flag "-v=" <$> mount_plan w pkg)
                  ++ docker_tail w), st')
         ∧ unnamed st' ∧ fs st ⊆ fs st'.
Proof.
  intros Hst Hpkg Hone. unfold _docker_args.
  edestruct (bind_mounts_ok w pkg (λ s, unnamed s ∧ fs st ⊆ fs s)
               (λ name path, bind_flag "-v=" (ro_binding name path))
               (λ name path cmd,
                  ret (cmd ++ ["-v=" +:+ path +:+ ":/opt/" +:+ name +:+ ":ro"])))
    as (st1 & E1 & Hst1 & Hsub);
    [exact Hpkg|..|exact Hone| |split; [exact Hst|done]|]; cbn beta.
  - by intros s [? ?].
  - intros s [? ?]. split; [by apply unnamed_named|done].
  - intros t s [? ?]. by split.
  - apply Forall_forall. intros ep _. repeat split.
    + intros path acc s Hs. by exists s.
    + intros path acc s Hs. by exists s.
    + by destruct H.
    + simpl. destruct H. set_solver.
  - rewrite (bind_Ok _ _ _ _ _ E1). unfold _path. rewrite bind_ret.
    rewrite (bind_Ok _ _ _ _ _ (pkg_name_ok w pkg st1 Hst1 Hpkg)).
    rewrite (bind_Ok _ _ _ _ _
               (pkg_name_ok w pkg _ (unnamed_named pkg st1 Hst1) Hpkg)).
    eexists. split; [|split; [by do 2 apply unnamed_named|done]].
    unfold ret. f_equal. f_equal.
    rewrite flat_map_yields_of, self_flag. unfold mount_plan, contributions.
    by rewrite fmap_app, <- !app_assoc.
Qed.

(** ** The singularity variant *)

Lemma TemporaryDirectory_eq w st :
  TemporaryDirectory w st =
  (Ok (mkdtemp w),
   set_fs (list_to_set [mkdtemp w] ∪ fs st)
     (set_trace (trace st ++ [MkTemp (mkdtemp w)]) st)).
Proof. reflexivity. Qed.

Lemma bind_setattr {B} name v (k : unit → M B) st :
  bind (setattr name v) k st = k tt (set_attrs (<[name := v]> (attrs st)) st).
Proof. reflexivity. Qed.

Lemma mkdir_ok p st :
  p ∉ fs st → removelast p ∈ fs st →
  mkdir p st =
  (Ok tt, set_fs (list_to_set [p] ∪ fs st) (set_trace (trace st ++ [Mkdir p]) st)).
Proof.
  intros Hp Hparent. unfold mkdir. rewrite bind_emit. simpl.
  rewrite bool_decide_eq_false_2 by done.
  rewrite bool_decide_eq_true_2 by (by right). reflexivity.
Qed.

Lemma staged_add tmp pkg ps st :
  staged tmp pkg st → tmp ++ [pkg] ∉ ps →
  staged tmp pkg (set_fs (list_to_set ps ∪ fs st) st).
Proof.
  intros (Hu & Hin & Hnot) Hps. split; [done|]. simpl. split; [set_solver|].
  rewrite elem_of_union, elem_of_list_to_set. tauto.
Qed.

Lemma staged_mkdir_parents tmp pkg p st :
  staged tmp pkg st → ¬ tmp ++ [pkg] `prefix_of` p →
  ∃ st', mkdir_parents p st = (Ok tt, st') ∧ staged tmp pkg st'.
Proof.
  intros Hst Hp. rewrite mkdir_parents_eq. eexists. split; [done|].
  apply (staged_add tmp pkg (with_parents p) (set_trace _ st)); [done|].
  by intros [_ ?]%elem_of_with_parents.
Qed.

Lemma sibling_not_prefix (tmp : Path) (pkg m : string) rest :
  pkg ≠ m → ¬ tmp ++ [pkg] `prefix_of` tmp ++ m :: rest.
Proof. intros Hne H%prefix_app_inv%prefix_cons_inv_1. done. Qed.

Lemma singularity_args_ok w pkg st :
  unnamed st → top_level w = [pkg] → plain_name pkg →
  Forall single_static (contributions pkg w) →
  Forall (λ ep, plain_name (ep_module ep)) (contributions pkg w) →
  fresh_staging w st →
  ∃ st', _singularity_args w st =
           (Ok (["run"; "--writable"; "--containall";
                 "--bind=" +:+ path_str (mkdtemp w) +:+ ":/opt"]
                  ++ (bind_flag "--bind=" <$> mount_plan w pkg)
                  ++ singularity_tail), st')
         ∧ unnamed st' ∧ mkdtemp w ∈ fs st'.
Proof.
  intros Hst Hpkg Hplain Hone Hmods [Hfresh Hout]. unfold _singularity_args.
  rewrite (bind_Ok _ _ _ _ _ (TemporaryDirectory_eq w st)), bind_setattr.
  set (tmp := mkdtemp w) in *.
  set (body := λ (name path : string) (cmd : list string),
         mkdir_parents (pjoin tmp name) ;;;
         ret (cmd ++ ["--bind=" +:+ path +:+ ":/opt/" +:+ name +:+ ":ro"])).
  set (g := λ name path, bind_flag "--bind=" (ro_binding name path)).
  assert (Forall (passable (staged tmp pkg) g body) (contributions pkg w)) as Hpass.
  { unfold contributions in *. apply Forall_forall. intros ep Hep.
    pose proof (proj1 (Forall_forall _ _) Hmods ep Hep) as Hm. simpl in Hm.
    apply list_elem_of_In, filter_In in Hep as [Hin Hc].
    apply andb_true_iff in Hc as [Hne _].
    apply negb_true_iff, String.eqb_neq in Hne.
    pose proof (proj1 (Forall_forall _ _) Hout ep
                  (proj2 (list_elem_of_In _ _) Hin)) as Hmp.
    split; [|split].
    - intros path acc s Hs. unfold body.
      edestruct (staged_mkdir_parents tmp pkg (pjoin tmp (ep_module ep)) s)
        as (s' & E & Hs'); [done| |].
      { rewrite pjoin_plain by done. by apply sibling_not_prefix. }
      exists s'. by rewrite (bind_Ok _ _ _ _ _ E).
    - intros path acc s Hs. unfold body.
      edestruct (staged_mkdir_parents tmp pkg
                   (pjoin tmp (ep_module ep +:+ "/WebApp/static")) s)
        as (s' & E & Hs'); [done| |].
      { rewrite pjoin_plain_static by done. by apply sibling_not_prefix. }
      exists s'. by rewrite (bind_Ok _ _ _ _ _ E).
    - intros s Hs. apply staged_add; [done|].
      intros [_ Hq]%elem_of_with_parents.
      by apply Hmp, (prefix_app_l _ _ [pkg]). }
  assert (∀ s, staged tmp pkg s → unnamed s) as Iu by by intros s [? ?].
  assert (∀ s, staged tmp pkg s → staged tmp pkg (named pkg s)) as In.
  { intros s (? & ? & ?). repeat split; [by apply unnamed_named|done..]. }
  assert (∀ t s, staged tmp pkg s → staged tmp pkg (set_trace t s)) as It.
  { intros t s (? & ? & ?). by repeat split. }
  match goal with |- ∃ _, bind (_bind_mounts _ _ _ ?a0) _ ?s0 = _ ∧ _ =>
    destruct (bind_mounts_ok w pkg (staged tmp pkg) g body Hpkg Iu In It
                (entry_points w) Hone Hpass a0 s0) as (st1 & E1 & Hst1)
  end.
  - repeat split; simpl.
    + unfold unnamed in *. simpl. by rewrite lookup_insert_ne.
    + set_solver.
    + intros [Hq|Hq]%elem_of_union.
      * apply elem_of_union in Hq as [Hq|Hq]; [|by apply not_elem_of_empty in Hq].
        apply elem_of_singleton in Hq. apply (f_equal length) in Hq. rewrite length_app in Hq. simpl in Hq. lia.
      * apply (Hfresh _ Hq). by apply prefix_app_r.
  - destruct Hst1 as (Hu1 & Hin1 & Hnot1).
    rewrite (bind_Ok _ _ _ _ _ E1).
    rewrite (bind_Ok _ _ _ _ _ (pkg_name_ok w pkg st1 Hu1 Hpkg)).
    rewrite pjoin_plain by done.
    rewrite (bind_Ok _ _ _ _ _ (mkdir_ok (tmp ++ [pkg]) (named pkg st1) Hnot1
               ltac:(by rewrite removelast_last))).
    unfold _path. rewrite bind_ret.
    assert (unnamed (set_fs (list_to_set [tmp ++ [pkg]] ∪ fs (named pkg st1))
                       (set_trace (trace (named pkg st1) ++ [Mkdir (tmp ++ [pkg])])
                          (named pkg st1)))) as Hu2 by by apply unnamed_named.
    rewrite (bind_Ok _ _ _ _ _ (pkg_name_ok w pkg _ Hu2 Hpkg)).
    rewrite (bind_Ok _ _ _ _ _
               (pkg_name_ok w pkg _ (unnamed_named pkg _ Hu2) Hpkg)).
    eexists. split; [|split; [by do 2 apply unnamed_named|simpl; set_solver]].
    unfold ret. f_equal. f_equal. unfold g.
    rewrite flat_map_yields_of, self_flag. unfold mount_plan, contributions.
    by rewrite fmap_app, <- !app_assoc.
Qed.

(** ** Selecting the executable *)

Lemma bind_which {B} w exe (k : option string → M B) st :
  bind (shutil_which w exe) k st
  = k (which w exe) (set_trace (trace st ++ [Which exe]) st).
Proof. reflexivity. Qed.

Lemma find_exe_docker w st p :
  which w "docker" = Some p →
  find_exe w _available_exes st = (Ok p, selected "docker" ["docker"] st).
Proof.
  intros H. unfold _available_exes. cbn [find_exe].
  rewrite bind_setattr, bind_which, H. reflexivity.
Qed.

Lemma find_exe_singularity w st p :
  which w "docker" = None → which w "singularity" = Some p →
  find_exe w _available_exes st
  = (Ok p, selected "singularity" ["docker"; "singularity"] st).
Proof.
  intros H1 H2. unfold _available_exes. cbn [find_exe].
  rewrite bind_setattr, bind_which, H1, bind_setattr, bind_which, H2.
  unfold ret, selected, set_trace, set_attrs. simpl.
  by rewrite insert_insert_eq, <- app_assoc.
Qed.

Lemma find_exe_none w st :
  which w "docker" = None → which w "singularity" = None →
  find_exe w _available_exes st
  = (Raise (NotImplementedError (PStr "Unable to find a suitable command")),
     selected "singularity" ["docker"; "singularity"] st).
Proof.
  intros H1 H2. unfold _available_exes. cbn [find_exe].
  rewrite bind_setattr, bind_which, H1, bind_setattr, bind_which, H2.
  unfold raise, selected, set_trace, set_attrs. simpl.
  by rewrite insert_insert_eq, <- app_assoc.
Qed.

Lemma cmd_docker w st p :
  which w "docker" = Some p →
  _cmd w st =
  (args <~ _docker_args w ;;
   pkg <~ _pkg_name w ;;
   ret (([p] ++ args) ++ ["-D=/opt"; "-n=" +:+ pkg; "--py3-style"]))
    (selected "docker" ["docker"] st).
Proof.
  intros H. unfold _cmd.
  rewrite (bind_Ok _ _ _ _ _ (find_exe_docker w st p H)).
  unfold getattr at 1. unfold bind at 1. simpl. by rewrite lookup_insert_eq.
Qed.

Lemma cmd_singularity w st p :
  which w "docker" = None → which w "singularity" = Some p →
  _cmd w st =
  (args <~ _singularity_args w ;;
   pkg <~ _pkg_name w ;;
   ret (([p] ++ args) ++ ["-D=/opt"; "-n=" +:+ pkg; "--py3-style"]))
    (selected "singularity" ["docker"; "singularity"] st).
Proof.
  intros H1 H2. unfold _cmd.
  rewrite (bind_Ok _ _ _ _ _ (find_exe_singularity w st p H1 H2)).
  unfold getattr at 1. unfold bind at 1. simpl. by rewrite lookup_insert_eq.
Qed.

Lemma run_not_skipped w st :
  "DIRAC_WEBAPP_NO_COMPILE" ∉ environ w →
  run w st = (cmd <~ _cmd w ;; log_info "> %s" cmd ;;; check_call w cmd) st.
Proof. intros H. unfold run. by rewrite bool_decide_eq_false_2. Qed.

(** ** What every step keeps *)

Section Keeps.
Variable tmp : Path.

Lemma keeps_bind {A B} (m : M A) (k : A → M B) :
  keeps (held tmp) m → (∀ a, keeps (held tmp) (k a)) →
  keeps (held tmp) (bind m k).
Proof.
  intros Hm Hk st HP. unfold bind. specialize (Hm st HP).
  destruct (m st) as [[a|e] st1]; simpl in *; [by apply Hk|done].
Qed.

Lemma keeps_ret {A} (a : A) : keeps (held tmp) (ret a).
Proof. by intros st H. Qed.

Lemma keeps_raise {A} e : keeps (held tmp) (@raise A e).
Proof. by intros st H. Qed.

Lemma keeps_emit ev : keeps (held tmp) (emit ev).
Proof. by intros st H. Qed.

Lemma keeps_add_dirs ps : keeps (held tmp) (add_dirs ps).
Proof. intros st [H1 H2]. split; [simpl; set_solver|done]. Qed.

Lemma keeps_mkdir_parents p : keeps (held tmp) (mkdir_parents p).
Proof. apply keeps_bind; [apply keeps_emit|intros _; apply keeps_add_dirs]. Qed.

Lemma keeps_mkdir p : keeps (held tmp) (mkdir p).
Proof.
  apply keeps_bind; [apply keeps_emit|]. intros _ st H.
  destruct (bool_decide (p ∈ fs st)); [done|].
  destruct (bool_decide _); [by apply keeps_add_dirs|done].
Qed.

Lemma keeps_pkg_name w : keeps (held tmp) (_pkg_name w).
Proof.
  unfold _pkg_name. apply keeps_bind; [by intros st H|]. intros has.
  apply keeps_bind.
  - destruct (negb has); [|apply keeps_ret].
    destruct (negb _); [apply keeps_raise|].
    intros st [H1 H2]. split; [done|]. simpl. by rewrite lookup_insert_ne.
  - intros _. apply keeps_bind.
    + intros st H. unfold getattr. by destruct (attrs st !! mangled__name).
    + intros [s|p]; [apply keeps_ret|apply keeps_raise].
Qed.

Lemma keeps_bind_mounts {A} w eps (body : string → string → A → M A) acc :
  (∀ name path acc, keeps (held tmp) (body name path acc)) →
  keeps (held tmp) (_bind_mounts w eps body acc).
Proof.
  intros Hbody. revert acc.
  induction eps as [|ep eps IH]; intros acc; [apply keeps_ret|].
  cbn [_bind_mounts]. apply keeps_bind; [apply keeps_pkg_name|]. intros pkg.
  destruct (String.eqb pkg (ep_module ep)); [apply IH|].
  apply keeps_bind; [apply keeps_emit|]. intros _.
  destruct (ep_static ep) as [[|d ds]|]; [apply IH| |apply IH].
  apply keeps_bind; [apply keeps_emit|]. intros _.
  apply keeps_bind; [apply Hbody|]. intros acc1.
  destruct (negb _); [apply keeps_raise|].
  apply keeps_bind; [apply keeps_emit|]. intros _.
  apply keeps_bind; [apply keeps_mkdir_parents|]. intros _.
  apply keeps_bind; [apply Hbody|]. intros acc2. apply IH.
Qed.

Lemma keeps_check_call w cmd : keeps (held tmp) (check_call w cmd).
Proof.
  apply keeps_bind; [apply keeps_emit|]. intros _.
  destruct (Z.eqb _ _); [apply keeps_ret|apply keeps_raise].
Qed.
End Keeps.

Lemma held_bind {A B} tmp (m : M A) (k : A → M B) st :
  held tmp (m st).2 → (∀ a, keeps (held tmp) (k a)) → held tmp (bind m k st).2.
Proof.
  unfold bind. destruct (m st) as [[a|e] st1]; simpl; intros H Hk; [by apply Hk|done].
Qed.

(** Whatever happens in it, [_singularity_args] leaves the staging directory
    behind, held by the command object. *)
Lemma singularity_args_held w st :
  held (mkdtemp w) (snd (_singularity_args w st)).
Proof.
  unfold _singularity_args.
  rewrite (bind_Ok _ _ _ _ _ (TemporaryDirectory_eq w st)), bind_setattr.
  match goal with |- held _ (snd (?m ?s)) =>
    assert (keeps (held (mkdtemp w)) m) as Hk; [|apply Hk]
  end.
  - apply keeps_bind.
    { apply keeps_bind_mounts. intros name path acc.
      apply keeps_bind; [apply keeps_mkdir_parents|intros _; apply keeps_ret]. }
    intros cmd. apply keeps_bind; [apply keeps_pkg_name|]. intros pkg.
    apply keeps_bind; [apply keeps_mkdir|]. intros _.
    apply keeps_bind; [apply keeps_ret|]. intros path.
    apply keeps_bind; [apply keeps_pkg_name|]. intros pkg1.
    apply keeps_bind; [apply keeps_pkg_name|]. intros pkg2. apply keeps_ret.
  - split; simpl; [set_solver|by rewrite lookup_insert_eq].
Qed.

(** ** Reading the bind mounts back *)

Lemma strip_append opt s : strip opt (opt +:+ s) = Some s.
Proof.
  induction opt as [|a opt IH]; [done|].
  rewrite append_cons. cbn [strip]. by rewrite Ascii.eqb_refl.
Qed.

Lemma bind_specs_app opt l1 l2 :
  bind_specs opt (l1 ++ l2) = bind_specs opt l1 ++ bind_specs opt l2.
Proof. apply omap_app. Qed.

Lemma bind_specs_flags opt plan :
  bind_specs opt (bind_flag opt <$> plan) = bind_flag "" <$> plan.
Proof.
  induction plan as [|b plan IH]; [done|]. unfold bind_specs in *. csimpl.
  change (bind_flag opt b) with (opt +:+ bind_flag "" b).
  by rewrite strip_append, IH.
Qed.

Lemma bind_specs_docker_tail w : bind_specs "-v=" (docker_tail w) = [].
Proof. reflexivity. Qed.

Lemma bind_specs_singularity_tail : bind_specs "--bind=" singularity_tail = [].
Proof. reflexivity. Qed.

Lemma no_identity_flag_in_binds plan :
  Forall (λ a, strip "-u=" a = None) (bind_flag "--bind=" <$> plan).
Proof. apply Forall_fmap, Forall_forall. by intros b _. Qed.

(** What a contribution with one static directory yields. *)
Lemma yields_of_single ep d :
  ep_static ep = Some [d] →
  yields_of ro_binding ep =
  [ {| container_path := ep_module ep;
       host_path := path_str (ep_module_path ep);
       read_only := true |};
    {| container_path := ep_module ep +:+ "/WebApp/static";
       host_path := d;
       read_only := true |} ].
Proof. intros H. unfold yields_of. by rewrite H. Qed.

(** ** A contribution with several static directories *)

Lemma docker_body_ok name :
  body_ok unnamed (λ name path, bind_flag "-v=" (ro_binding name path))
    (λ name path cmd,
       ret (cmd ++ ["-v=" +:+ path +:+ ":/opt/" +:+ name +:+ ":ro"])) name.
Proof. intros path acc s Hs. by exists s. Qed.

Lemma singularity_body_ok tmp name :
  body_ok unnamed (λ name path, bind_flag "--bind=" (ro_binding name path))
    (λ name path cmd,
       mkdir_parents (pjoin tmp name) ;;;
       ret (cmd ++ ["--bind=" +:+ path +:+ ":/opt/" +:+ name +:+ ":ro"])) name.
Proof.
  intros path acc s Hs. rewrite (bind_Ok _ _ _ _ _ (mkdir_parents_eq _ _)).
  eexists. by split.
Qed.

Lemma docker_body_logged ev name path (acc : list string) :
  keeps (logged ev)
    (ret (acc ++ ["-v=" +:+ path +:+ ":/opt/" +:+ name +:+ ":ro"])).
Proof. by intros s Hs. Qed.

Lemma singularity_body_logged tmp ev name path (acc : list string) :
  keeps (logged ev)
    (mkdir_parents (pjoin tmp name) ;;;
     ret (acc ++ ["--bind=" +:+ path +:+ ":/opt/" +:+ name +:+ ":ro"])).
Proof.
  intros s Hs. rewrite (bind_Ok _ _ _ _ _ (mkdir_parents_eq _ _)).
  unfold logged in *. simpl. apply elem_of_app. by left.
Qed.

Lemma passable_unnamed {B} (g : string → string → B) body eps :
  (∀ name, body_ok unnamed g body name) → Forall (passable unnamed g body) eps.
Proof. intros Hb. apply Forall_forall. intros ep _. by repeat split. Qed.

(** ** Container paths *)

Lemma cpaths_of_contributions pkg eps :
  container_path <$> flat_map (yields_of ro_binding) (List.filter (contributes pkg) eps)
  = flat_map (λ m, [m; m +:+ "/WebApp/static"])
      (ep_module <$> List.filter (contributes pkg) eps).
Proof.
  induction eps as [|ep eps IH]; [done|]. cbn [List.filter].
  destruct (contributes pkg ep) eqn:Hc; [|done].
  apply andb_true_iff in Hc as [_ Hs]. csimpl. rewrite fmap_app, IH.
  unfold yields_of. by destruct (ep_static ep) as [[|d ds]|].
Qed.

Lemma elem_of_cpaths x ms :
  x ∈ flat_map (λ m, [m; m +:+ "/WebApp/static"]) ms →
  ∃ m, m ∈ ms ∧ (x = m ∨ x = m +:+ "/WebApp/static").
Proof.
  induction ms as [|m ms IH]; cbn [flat_map].
  - by intros ?%elem_of_nil.
  - intros [Hx|Hx]%elem_of_app.
    + exists m. split; [left|].
      apply elem_of_cons in Hx as [->|Hx]; [by left|right].
      by apply list_elem_of_singleton in Hx.
    + destruct (IH Hx) as (m' & ? & ?). exists m'. split; [by right|done].
Qed.

Lemma NoDup_cpaths ms :
  NoDup ms → Forall plain_name ms →
  NoDup (flat_map (λ m, [m; m +:+ "/WebApp/static"]) ms).
Proof.
  induction 1 as [|m ms Hm Hnd IH]; intros Hplain; cbn [flat_map].
  { constructor. }
  apply Forall_cons in Hplain as [Hpm Hplain]. cbn [app].
  constructor; [|constructor; [|by apply IH]].
  - intros [E|Hx]%elem_of_cons.
    + by apply (plain_name_not_static m m).
    + apply elem_of_cpaths in Hx as (m' & Hm' & [->|E]); [done|].
      by apply (plain_name_not_static m m').
  - intros (m' & Hm' & [E|E])%elem_of_cpaths.
    + apply (proj1 (Forall_forall _ _) Hplain) in Hm' as Hp'.
      by apply (plain_name_not_static m' m).
    + apply append_inj_l in E as ->. done.
Qed.

(** ** The claims *)

(** C1, as the code has it.  For every sequence of entry points whose
    contributions each declare one static directory, the docker vector
    renders exactly the mount plan, in discovery order: per contribution two
    read-only bindings, the plugin's module directory at [<module>] and its
    declared static directory at [<module>/WebApp/static], and after them the
    one read-write binding of [<cwd>/src/<package>] at [<package>]; the vector
    holds no other bind mount. *)
Theorem mount_plan_two_bindings_per_contribution w pkg st :
  unnamed st → top_level w = [pkg] →
  Forall single_static (contributions pkg w) →
  (_docker_args w st).1 =
    Ok (["run"; "--rm"] ++ (bind_flag "-v=" <$> mount_plan w pkg) ++ docker_tail w)
  ∧ (∀ cmd, (_docker_args w st).1 = Ok cmd →
       bind_specs "-v=" cmd = bind_flag "" <$> mount_plan w pkg)
  ∧ mount_plan w pkg =
      flat_map (yields_of ro_binding) (contributions pkg w)
      ++ [ {| container_path := pkg;
              host_path := getcwd w +:+ "/src/" +:+ pkg;
              read_only := false |} ]
  ∧ Forall (λ ep, ∃ d, ep_static ep = Some [d] ∧
               yields_of ro_binding ep =
               [ {| container_path := ep_module ep;
                    host_path := path_str (ep_module_path ep);
                    read_only := true |};
                 {| container_path := ep_module ep +:+ "/WebApp/static";
                    host_path := d;
                    read_only := true |} ])
      (contributions pkg w)
  ∧ length (mount_plan w pkg) = (2 * length (contributions pkg w) + 1)%nat.
Proof.
  intros Hst Hpkg Hone.
  destruct (docker_args_ok w pkg st Hst Hpkg Hone) as (st' & E & _).
  rewrite E. split; [done|]. split.
  { intros cmd [= <-].
    change (bind_specs "-v=" ((bind_flag "-v=" <$> mount_plan w pkg) ++ docker_tail w)
            = bind_flag "" <$> mount_plan w pkg).
    by rewrite bind_specs_app, bind_specs_flags, bind_specs_docker_tail, app_nil_r. }
  split; [done|]. split.
  { eapply Forall_impl; [exact Hone|]. intros ep [d Hd]. exists d.
    split; [done|]. by apply yields_of_single. }
  unfold mount_plan. rewrite length_app. simpl.
  induction Hone as [|ep eps [d Hd] _ IH]; [done|]. cbn [flat_map].
  rewrite length_app, (yields_of_single ep d Hd). simpl. lia.
Qed.

Lemma mount_plan_two_bindings_per_contribution_witness :
  (_docker_args many_plugins init).1 =
    Ok ["run"; "--rm";
        "-v=/site/pluginA:/opt/pluginA:ro";
        "-v=/host/a/static:/opt/pluginA/WebApp/static:ro";
        "-v=/site/pluginB:/opt/pluginB:ro";
        "-v=/host/b/static:/opt/pluginB/WebApp/static:ro";
        "-v=/repo/src/mypkg:/opt/mypkg";
        "-w=/tmp"; "-u=1000:1000"; "diracgrid/dirac-distribution:latest";
        "/dirac-webapp-compile.py"].
Proof.
  apply (mount_plan_two_bindings_per_contribution many_plugins "mypkg" init).
  - reflexivity.
  - reflexivity.
  - repeat constructor; eexists; reflexivity.
Defined.

(** C1 as stated fails on the example of the specification: one plugin,
    package [mypkg], source root [/repo].  The vector binds three
    directories, the first of them the plugin's module directory, where the
    claim allows the two of [spec_mount_plan] only. *)
Lemma spec_plan_misses_module_binding :
  ∃ cmd, (_docker_args docker_host init).1 = Ok cmd
    ∧ bind_specs "-v=" cmd =
        ["/site/pluginA:/opt/pluginA:ro";
         "/host/a/static:/opt/pluginA/WebApp/static:ro";
         "/repo/src/mypkg:/opt/mypkg"]
    ∧ bind_flag "" <$> spec_mount_plan docker_host "mypkg" =
        ["/host/a/static:/opt/pluginA/WebApp/static:ro";
         "/repo/src/mypkg:/opt/mypkg"]
    ∧ bind_specs "-v=" cmd ≠ bind_flag "" <$> spec_mount_plan docker_host "mypkg".
Proof. eexists. repeat split; [compute_done..|]. vm_compute. discriminate. Qed.

(** C2.  Under the conditions in which the vectors are synthesized (the
    package name resolves, every contribution declares one static directory,
    names are single path segments and the staging directory is new), the
    docker and the singularity vector render one and the same mount plan, in
    the same order: the same container paths below [/opt], each with the same
    host path and the same [:ro] marker or none; read back from the vectors,
    the bind mounts of the plan are equal.  The singularity vector binds its
    staging directory at [/opt] itself before them. *)
Theorem backends_render_same_plan w pkg st :
  unnamed st → top_level w = [pkg] → plain_name pkg →
  Forall single_static (contributions pkg w) →
  Forall (λ ep, plain_name (ep_module ep)) (contributions pkg w) →
  fresh_staging w st →
  ∃ cd cs,
    (_docker_args w st).1 = Ok cd ∧ (_singularity_args w st).1 = Ok cs
    ∧ cd = ["run"; "--rm"] ++ (bind_flag "-v=" <$> mount_plan w pkg) ++ docker_tail w
    ∧ cs = ["run"; "--writable"; "--containall";
            "--bind=" +:+ path_str (mkdtemp w) +:+ ":/opt"]
           ++ (bind_flag "--bind=" <$> mount_plan w pkg) ++ singularity_tail
    ∧ bind_specs "-v=" cd = bind_flag "" <$> mount_plan w pkg
    ∧ bind_specs "--bind=" cs
      = (path_str (mkdtemp w) +:+ ":/opt") :: (bind_flag "" <$> mount_plan w pkg).
Proof.
  intros Hst Hpkg Hplain Hone Hmods Hfresh.
  destruct (docker_args_ok w pkg st Hst Hpkg Hone) as (sd & Ed & _).
  destruct (singularity_args_ok w pkg st Hst Hpkg Hplain Hone Hmods Hfresh)
    as (ss & Es & _).
  eexists _, _. rewrite Ed, Es. repeat split.
  - change (bind_specs "-v=" ((bind_flag "-v=" <$> mount_plan w pkg) ++ docker_tail w)
            = bind_flag "" <$> mount_plan w pkg).
    by rewrite bind_specs_app, bind_specs_flags, bind_specs_docker_tail, app_nil_r.
  - rewrite bind_specs_app. unfold bind_specs at 1. csimpl.
    rewrite append_nil_l. f_equal.
    by rewrite bind_specs_app, bind_specs_flags, bind_specs_singularity_tail,
      app_nil_r.
Qed.

Lemma backends_render_same_plan_witness :
  ∃ cd cs,
    (_docker_args many_plugins init).1 = Ok cd
    ∧ (_singularity_args many_plugins init).1 = Ok cs
    ∧ cd = ["run"; "--rm"]
           ++ (bind_flag "-v=" <$> mount_plan many_plugins "mypkg")
           ++ docker_tail many_plugins
    ∧ cs = ["run"; "--writable"; "--containall";
            "--bind=" +:+ path_str (mkdtemp many_plugins) +:+ ":/opt"]
           ++ (bind_flag "--bind=" <$> mount_plan many_plugins "mypkg")
           ++ singularity_tail
    ∧ bind_specs "-v=" cd = bind_flag "" <$> mount_plan many_plugins "mypkg"
    ∧ bind_specs "--bind=" cs
      = (path_str (mkdtemp many_plugins) +:+ ":/opt")
        :: (bind_flag "" <$> mount_plan many_plugins "mypkg").
Proof.
  apply (backends_render_same_plan many_plugins "mypkg" init).
  - reflexivity.
  - reflexivity.
  - split; reflexivity.
  - repeat constructor; eexists; reflexivity.
  - repeat constructor.
  - split.
    + intros p Hp. by apply not_elem_of_empty in Hp.
    + repeat constructor; intros [k Hk]; discriminate Hk.
Defined.

(** C3, as the code has it.  Let [ep] be the first contribution that declares
    two or more static directories, the contributions before it declaring
    one each.  Then both callers of the generator raise
    [NotImplementedError] whose single argument is exactly the full list
    [ep] declared, and neither returns an argument vector.  The module name
    of [ep] is no argument of the exception: it is in the line logged before
    the exception is raised, which is in the trace both callers leave. *)
Theorem several_static_dirs_raise w pkg st pre ep post d1 d2 ds :
  unnamed st → top_level w = [pkg] →
  entry_points w = pre ++ ep :: post →
  Forall single_static (List.filter (contributes pkg) pre) →
  contributes pkg ep = true →
  ep_static ep = Some (d1 :: d2 :: ds) →
  (_docker_args w st).1 = Raise (NotImplementedError (PList (d1 :: d2 :: ds)))
  ∧ (_singularity_args w st).1 = Raise (NotImplementedError (PList (d1 :: d2 :: ds)))
  ∧ logged (found_line ep) (_docker_args w st).2
  ∧ logged (found_line ep) (_singularity_args w st).2.
Proof.
  intros Hst Hpkg Heps Hone Hc Hd.
  assert (∃ st', _docker_args w st
                 = (Raise (NotImplementedError (PList (d1 :: d2 :: ds))), st')
                 ∧ logged (found_line ep) st') as (s1 & E1 & L1).
  { unfold _docker_args. rewrite Heps.
    edestruct (bind_mounts_fail_logged w pkg unnamed _ _ Hpkg (λ s H, H)
                 (unnamed_named pkg) unnamed_set_trace pre ep post d1 d2 ds Hone
                 (passable_unnamed _ _ _ docker_body_ok) Hc Hd
                 (docker_body_ok _) docker_body_logged ["run"; "--rm"] st Hst)
      as (st' & E & L).
    exists st'. split; [|done]. by rewrite (bind_Raise _ _ _ _ _ E). }
  assert (∃ st', _singularity_args w st
                 = (Raise (NotImplementedError (PList (d1 :: d2 :: ds))), st')
                 ∧ logged (found_line ep) st') as (s2 & E2 & L2).
  { unfold _singularity_args.
    rewrite (bind_Ok _ _ _ _ _ (TemporaryDirectory_eq w st)), bind_setattr, Heps.
    match goal with |- ∃ st', bind (_bind_mounts _ _ _ ?a0) _ ?s0 = _ ∧ _ =>
      edestruct (bind_mounts_fail_logged w pkg unnamed _ _ Hpkg (λ s H, H)
                   (unnamed_named pkg) unnamed_set_trace pre ep post d1 d2 ds Hone
                   (passable_unnamed _ _ _ (singularity_body_ok (mkdtemp w))) Hc Hd
                   (singularity_body_ok (mkdtemp w) _)
                   (singularity_body_logged (mkdtemp w)) a0 s0) as (st' & E & L)
    end.
    - unfold unnamed in *. simpl. by rewrite lookup_insert_ne.
    - exists st'. split; [|done]. by rewrite (bind_Raise _ _ _ _ _ E). }
  by rewrite E1, E2.
Qed.

Lemma several_static_dirs_raise_witness :
  (_docker_args (two_dirs_host "pluginX") init).1
  = Raise (NotImplementedError (PList ["/srv/www/static"; "/srv/www/extra"]))
  ∧ (_singularity_args (two_dirs_host "pluginX") init).1
    = Raise (NotImplementedError (PList ["/srv/www/static"; "/srv/www/extra"]))
  ∧ logged (found_line (plugin_two "pluginX"))
      (_docker_args (two_dirs_host "pluginX") init).2
  ∧ logged (found_line (plugin_two "pluginX"))
      (_singularity_args (two_dirs_host "pluginX") init).2.
Proof.
  apply (several_static_dirs_raise (two_dirs_host "pluginX") "mypkg" init
           [pluginB] (plugin_two "pluginX") [pluginA]).
  - reflexivity.
  - reflexivity.
  - reflexivity.
  - repeat constructor; eexists; reflexivity.
  - reflexivity.
  - reflexivity.
Defined.

(** C3 as stated fails: the exception raised for the plugin [pluginX] does
    not mention [pluginX], and it is the very exception raised when the
    plugin is called [pluginY] instead. *)
Lemma static_dirs_error_does_not_name_plugin :
  ∃ e, (_docker_args (two_dirs_host "pluginX") init).1 = Raise e
    ∧ names_plugin e "pluginX" = false
    ∧ (_docker_args (two_dirs_host "pluginY") init).1 = Raise e
    ∧ (_singularity_args (two_dirs_host "pluginX") init).1 = Raise e.
Proof. eexists. repeat split; compute_done. Qed.

(** C4.  Backend selection goes through the fixed preference order, docker
    first and singularity second, and stops at the first name [shutil.which]
    resolves: when docker resolves, its path is taken and singularity is not
    probed; when only singularity resolves, its path is taken after docker was
    probed; when neither resolves, the loop raises the error of its [else]
    branch, and so does [_cmd], which yields no command and has done nothing
    but the two probes. *)
Theorem backend_selection w st :
  _available_exes = ["docker"; "singularity"] ∧
  let r := find_exe w _available_exes st in
  match which w "docker", which w "singularity" with
  | Some p, _ =>
      r.1 = Ok p ∧ attrs r.2 !! "_exe" = Some (VStr "docker")
      ∧ trace r.2 = trace st ++ [Which "docker"]
  | None, Some p =>
      r.1 = Ok p ∧ attrs r.2 !! "_exe" = Some (VStr "singularity")
      ∧ trace r.2 = trace st ++ [Which "docker"; Which "singularity"]
  | None, None =>
      r.1 = Raise (NotImplementedError (PStr "Unable to find a suitable command"))
      ∧ (_cmd w st).1
        = Raise (NotImplementedError (PStr "Unable to find a suitable command"))
      ∧ trace (_cmd w st).2 = trace st ++ [Which "docker"; Which "singularity"]
      ∧ fs (_cmd w st).2 = fs st
  end.
Proof.
  split; [done|]. cbv zeta.
  destruct (which w "docker") as [p|] eqn:Hd.
  - rewrite (find_exe_docker w st p Hd). simpl. by rewrite lookup_insert_eq.
  - destruct (which w "singularity") as [p|] eqn:Hs.
    + rewrite (find_exe_singularity w st p Hd Hs). simpl.
      by rewrite lookup_insert_eq.
    + unfold _cmd. rewrite (bind_Raise _ _ _ _ _ (find_exe_none w st Hd Hs)).
      by rewrite (find_exe_none w st Hd Hs).
Qed.

(** C5, as the code has it.  Both vectors end with the image reference
    followed by the entry point [/dirac-webapp-compile.py].  Only the docker
    vector carries, before its image reference, the working directory flag
    and the identity flag [-u=<uid>:<gid>] of the invoking user, and it names
    the image bare; the singularity vector names the image with the
    [docker://] scheme and has no argument that starts with [-u=]. *)
Theorem trailing_arguments w pkg st :
  unnamed st → top_level w = [pkg] → plain_name pkg →
  Forall single_static (contributions pkg w) →
  Forall (λ ep, plain_name (ep_module ep)) (contributions pkg w) →
  fresh_staging w st →
  ∃ dpre spre,
    (_docker_args w st).1 =
      Ok (dpre ++ ["-w=/tmp";
                   "-u=" +:+ pretty (getuid w) +:+ ":" +:+ pretty (getgid w);
                   "diracgrid/dirac-distribution:latest";
                   "/dirac-webapp-compile.py"])
    ∧ (_singularity_args w st).1 =
      Ok (spre ++ ["docker://diracgrid/dirac-distribution:latest";
                   "/dirac-webapp-compile.py"])
    ∧ Forall (λ a, strip "-u=" a = None)
        (spre ++ ["docker://diracgrid/dirac-distribution:latest";
                  "/dirac-webapp-compile.py"]).
Proof.
  intros Hst Hpkg Hplain Hone Hmods Hfresh.
  destruct (docker_args_ok w pkg st Hst Hpkg Hone) as (sd & Ed & _).
  destruct (singularity_args_ok w pkg st Hst Hpkg Hplain Hone Hmods Hfresh)
    as (ss & Es & _).
  exists (["run"; "--rm"] ++ (bind_flag "-v=" <$> mount_plan w pkg)),
    (["run"; "--writable"; "--containall";
      "--bind=" +:+ path_str (mkdtemp w) +:+ ":/opt"]
       ++ (bind_flag "--bind=" <$> mount_plan w pkg)).
  rewrite Ed, Es. split; [by rewrite <- app_assoc|].
  split; [by rewrite <- app_assoc|].
  apply Forall_app. split; [|by repeat constructor].
  apply Forall_app. split; [by repeat constructor|].
  apply no_identity_flag_in_binds.
Qed.

Lemma trailing_arguments_witness :
  ∃ dpre spre,
    (_docker_args docker_host init).1 =
      Ok (dpre ++ ["-w=/tmp"; "-u=1000:1000";
                   "diracgrid/dirac-distribution:latest";
                   "/dirac-webapp-compile.py"])
    ∧ (_singularity_args docker_host init).1 =
      Ok (spre ++ ["docker://diracgrid/dirac-distribution:latest";
                   "/dirac-webapp-compile.py"])
    ∧ Forall (λ a, strip "-u=" a = None)
        (spre ++ ["docker://diracgrid/dirac-distribution:latest";
                  "/dirac-webapp-compile.py"]).
Proof.
  apply (trailing_arguments docker_host "mypkg" init).
  - reflexivity.
  - reflexivity.
  - split; reflexivity.
  - repeat constructor; eexists; reflexivity.
  - repeat constructor.
  - split.
    + intros p Hp. by apply not_elem_of_empty in Hp.
    + repeat constructor; intros [k Hk]; discriminate Hk.
Defined.

(** C5 as stated fails: for user 1000 in group 1000 the docker vector has
    the identity flag, and no argument of the singularity vector so much as
    mentions the identity; the last arguments of the two vectors differ. *)
Lemma singularity_has_no_identity_flag :
  ∃ cd cs,
    (_docker_args docker_host init).1 = Ok cd
    ∧ (_singularity_args docker_host init).1 = Ok cs
    ∧ "-u=1000:1000" ∈ cd
    ∧ Forall (λ a, str_contains "1000" a = false) cs
    ∧ drop (length cd - 3) cd ≠ drop (length cs - 3) cs.
Proof.
  eexists _, _. repeat split; [compute_done..| |].
  - vm_compute. repeat constructor.
  - vm_compute. discriminate.
Qed.

(** C6, as the code has it.  The synthesize-and-run sequence of the
    singularity variant has no step that removes the staging directory: when
    [run] returns or raises, for whatever reason, the directory still exists
    and the [TemporaryDirectory] object is still the [_tmpdir] attribute of
    the command, whose finalizer alone removes it later. *)
Theorem staging_directory_outlives_run w st p :
  "DIRAC_WEBAPP_NO_COMPILE" ∉ environ w →
  which w "docker" = None → which w "singularity" = Some p →
  mkdtemp w ∈ fs (run w st).2
  ∧ attrs (run w st).2 !! "_tmpdir" = Some (VTmpDir (mkdtemp w)).
Proof.
  intros Hskip Hd Hs. change (held (mkdtemp w) (run w st).2).
  rewrite (run_not_skipped w st Hskip). apply held_bind.
  - rewrite (cmd_singularity w st p Hd Hs).
    apply held_bind; [apply singularity_args_held|]. intros args.
    apply keeps_bind; [apply keeps_pkg_name|intros pkg; apply keeps_ret].
  - intros cmd. apply keeps_bind; [apply keeps_emit|].
    intros _. apply keeps_check_call.
Qed.

Lemma staging_directory_outlives_run_witness :
  mkdtemp (singularity_host 0) ∈ fs (run (singularity_host 0) init).2
  ∧ attrs (run (singularity_host 0) init).2 !! "_tmpdir"
    = Some (VTmpDir (mkdtemp (singularity_host 0))).
Proof.
  apply (staging_directory_outlives_run (singularity_host 0) init
           "/usr/bin/singularity").
  - compute_done.
  - compute_done.
  - compute_done.
Defined.

(** C6 as stated fails: after a successful run, and after a run whose child
    exits with 137, the staging directory is still there. *)
Lemma staging_directory_still_exists :
  (run (singularity_host 0) init).1 = Ok tt
  ∧ ["tmp"; "tmpq1w2e3"] ∈ fs (run (singularity_host 0) init).2
  ∧ (∃ cmd, (run (singularity_host 137) init).1
            = Raise (CalledProcessError 137 cmd))
  ∧ ["tmp"; "tmpq1w2e3"] ∈ fs (run (singularity_host 137) init).2.
Proof.
  split; [compute_done|].
  split; [compute_done|].
  split; [eexists; compute_done|].
  compute_done.
Qed.

(** C7.  When [DIRAC_WEBAPP_NO_COMPILE] is in the environment, [run] returns
    normally after logging the warning that it skips the compilation: the
    attributes of the command and the file system are untouched, and the
    warning is the only effect, so no executable is probed, no entry point
    loaded, no directory made and no child started. *)
Theorem skip_flag_no_effects w st :
  "DIRAC_WEBAPP_NO_COMPILE" ∈ environ w →
  run w st =
  (Ok tt,
   set_trace
     (trace st ++
      [LogWarn "Skipping webapp compilation as DIRAC_WEBAPP_NO_COMPILE is set" []])
     st).
Proof. intros H. unfold run. by rewrite bool_decide_eq_true_2. Qed.

Lemma skip_flag_no_effects_witness :
  run skipping_host init =
  (Ok tt,
   {| attrs := ∅; fs := ∅;
      trace := [LogWarn "Skipping webapp compilation as DIRAC_WEBAPP_NO_COMPILE is set"
                  []] |}).
Proof.
  apply (skip_flag_no_effects skipping_host init).
  compute_done.
Defined.

(** C8.  When the skip flag is not set and [_cmd] has produced the vector
    [cmd], [run] starts the child with it as its last effect; a zero exit
    status makes [run] return, any other status [c] makes it raise
    [CalledProcessError] with that very [c] and the vector. *)
Theorem child_exit_code_propagates w st cmd :
  "DIRAC_WEBAPP_NO_COMPILE" ∉ environ w →
  (_cmd w st).1 = Ok cmd →
  (run w st).1 =
    (if Z.eqb (child_exit w cmd) 0 then Ok tt
     else Raise (CalledProcessError (child_exit w cmd) cmd))
  ∧ last (trace (run w st).2) = Some (Spawn cmd).
Proof.
  intros Hskip Hcmd. rewrite (run_not_skipped w st Hskip).
  destruct (_cmd w st) as [[cmd'|e] st1] eqn:E; simpl in Hcmd; [|done].
  injection Hcmd as ->. rewrite (bind_Ok _ _ _ _ _ E).
  unfold log_info, check_call. rewrite !bind_emit.
  destruct (Z.eqb (child_exit w cmd) 0); unfold ret, raise;
    cbn [fst snd trace set_trace]; by rewrite last_snoc.
Qed.

Lemma child_exit_code_propagates_witness :
  (run (singularity_host 137) init).1 =
  Raise (CalledProcessError 137
           ["/usr/bin/singularity"; "run"; "--writable"; "--containall";
            "--bind=/tmp/tmpq1w2e3:/opt";
            "--bind=/site/pluginA:/opt/pluginA:ro";
            "--bind=/host/a/static:/opt/pluginA/WebApp/static:ro";
            "--bind=/repo/src/mypkg:/opt/mypkg";
            "docker://diracgrid/dirac-distribution:latest";
            "/dirac-webapp-compile.py"; "-D=/opt"; "-n=mypkg"; "--py3-style"]).
Proof.
  apply (child_exit_code_propagates (singularity_host 137) init).
  - compute_done.
  - compute_done.
Defined.

(** C9.  When the contributing plugins have pairwise distinct module names
    (none is the package under build, whose own entry the generator skips)
    and module and package names are single path segments, the container
    paths of the mount plan the docker vector renders, the self-binding of
    the package included, are pairwise distinct. *)
Theorem container_paths_unique w pkg st :
  unnamed st → top_level w = [pkg] → plain_name pkg →
  Forall single_static (contributions pkg w) →
  Forall (λ ep, plain_name (ep_module ep)) (contributions pkg w) →
  NoDup (ep_module <$> contributions pkg w) →
  (_docker_args w st).1 =
    Ok (["run"; "--rm"] ++ (bind_flag "-v=" <$> mount_plan w pkg) ++ docker_tail w)
  ∧ NoDup (container_path <$> mount_plan w pkg).
Proof.
  intros Hst Hpkg Hplain Hone Hmods Hnd.
  destruct (docker_args_ok w pkg st Hst Hpkg Hone) as (st' & E & _).
  rewrite E. split; [done|]. unfold mount_plan, contributions in *.
  rewrite fmap_app, cpaths_of_contributions. apply NoDup_app.
  split; [|split; [|apply NoDup_singleton]].
  - apply NoDup_cpaths; [done|]. by apply Forall_fmap.
  - intros x (m & Hm & Hx)%elem_of_cpaths ->%list_elem_of_singleton.
    apply list_elem_of_fmap in Hm as (ep & -> & Hep).
    destruct Hx as [Hx|Hx].
    + apply list_elem_of_In, filter_In in Hep as [_ Hc].
      apply andb_true_iff in Hc as [Hne _].
      apply negb_true_iff, String.eqb_neq in Hne. by apply Hne.
    + simpl in Hx. by apply (plain_name_not_static _ (ep_module ep)) in Hplain.
Qed.

Lemma container_paths_unique_witness :
  (_docker_args many_plugins init).1 =
    Ok (["run"; "--rm"] ++ (bind_flag "-v=" <$> mount_plan many_plugins "mypkg")
          ++ docker_tail many_plugins)
  ∧ NoDup (container_path <$> mount_plan many_plugins "mypkg").
Proof.
  apply (container_paths_unique many_plugins "mypkg" init).
  - reflexivity.
  - reflexivity.
  - split; reflexivity.
  - repeat constructor; eexists; reflexivity.
  - repeat constructor.
  - apply (bool_decide_unpack _). vm_compute. exact I.
Defined.

(** C10, where the code departs from it.  The first read of [_pkg_name]
    stores the name under [_build_extjs_sources__name], but the command still
    has no attribute [__name], the one [hasattr] asks for; so a later read
    computes the name again from the packages of the distribution as they are
    then, and returns another name, or raises, where the stored one was to be
    reused. *)
Theorem pkg_name_is_computed_again :
  let first := _pkg_name (host ["docker"] [] ["mypkg"; "mypkg.WebApp"] ∅ 0) init in
  first.1 = Ok "mypkg"
  ∧ attrs first.2 !! "_build_extjs_sources__name" = Some (VStr "mypkg")
  ∧ (hasattr "__name" first.2).1 = Ok false
  ∧ (_pkg_name (host ["docker"] [] ["other"; "other.WebApp"] ∅ 0) first.2).1
    = Ok "other"
  ∧ (_pkg_name (host ["docker"] [] ["mypkg.WebApp"] ∅ 0) first.2).1
    = Raise (NotImplementedError (PFmt "Failed to find the package name: " [])).
Proof. cbv zeta. repeat split; compute_done. Qed.

(** ** What the steps leave alone *)

Lemma keeps_bind_any (P : State → Prop) {A B} (m : M A) (k : A → M B) :
  keeps P m → (∀ a, keeps P (k a)) → keeps P (bind m k).
Proof.
  intros Hm Hk st HP. unfold bind. specialize (Hm st HP).
  destruct (m st) as [[a|e] st1]; simpl in *; [by apply Hk|done].
Qed.

Section Frame.
Variable w : World.
Variable TP : list event → Prop.
Variable AP : gmap string value → Prop.
Variable allowed : event → Prop.
Variable ok_attr : string → Prop.

Hypothesis TP_snoc : ∀ ev t, allowed ev → TP t → TP (t ++ [ev]).
Hypothesis AP_insert : ∀ n v a, ok_attr n → AP a → AP (<[n:=v]> a).
Hypothesis allowed_log : ∀ fmt args, allowed (LogInfo fmt args).
Hypothesis allowed_mkdir : ∀ p, allowed (Mkdir p).
Hypothesis allowed_which : ∀ exe, allowed (Which exe).
Hypothesis ok_mangled : ok_attr mangled__name.
Hypothesis ok_exe : ok_attr "_exe".

Lemma frame_ret {A} (a : A) : keeps (framed TP AP) (ret a).
Proof. by intros st H. Qed.

Lemma frame_raise {A} e : keeps (framed TP AP) (@raise A e).
Proof. by intros st H. Qed.

Lemma frame_emit ev : allowed ev → keeps (framed TP AP) (emit ev).
Proof. intros Hev st [H1 H2]. split; [by apply TP_snoc|done]. Qed.

Lemma frame_setattr n v : ok_attr n → keeps (framed TP AP) (setattr n v).
Proof. intros Hn st [H1 H2]. split; [done|by apply AP_insert]. Qed.

Lemma frame_add_dirs ps : keeps (framed TP AP) (add_dirs ps).
Proof. by intros st H. Qed.

Lemma frame_mkdir_parents p : keeps (framed TP AP) (mkdir_parents p).
Proof.
  apply keeps_bind_any; [by apply frame_emit|intros _; apply frame_add_dirs].
Qed.

Lemma frame_mkdir p : keeps (framed TP AP) (mkdir p).
Proof.
  apply keeps_bind_any; [by apply frame_emit|]. intros _ st H.
  destruct (bool_decide (p ∈ fs st)); [done|].
  destruct (bool_decide _); [by apply frame_add_dirs|done].
Qed.

Lemma frame_pkg_name : keeps (framed TP AP) (_pkg_name w).
Proof.
  unfold _pkg_name. apply keeps_bind_any; [by intros st H|]. intros has.
  apply keeps_bind_any.
  - destruct (negb has); [|apply frame_ret].
    destruct (negb _); [apply frame_raise|by apply frame_setattr].
  - intros _. apply keeps_bind_any.
    + intros st H. unfold getattr. by destruct (attrs st !! mangled__name).
    + intros [s|p]; [apply frame_ret|apply frame_raise].
Qed.

(** The turn of the loop after the entry was found to be another package's. *)
Lemma frame_entry {A} ep rest (body : string → string → A → M A) acc :
  allowed (Load (ep_module ep)) →
  (∀ name path acc, keeps (framed TP AP) (body name path acc)) →
  (∀ acc, keeps (framed TP AP) (_bind_mounts w rest body acc)) →
  keeps (framed TP AP)
    (emit (Load (ep_module ep)) ;;;
     match ep_static ep with
     | Some ((d :: _) as static_dirs) =>
         let module_path := ep_module_path ep in
         log_info "Found WebApp module %s at %s"
           [ep_module ep; path_str module_path] ;;;
         acc <~ body (ep_module ep) (path_str module_path) acc ;;
         if negb (Nat.eqb (length static_dirs) 1) then
           raise (NotImplementedError (PList static_dirs))
         else
           log_info "Mounting static directory %s" static_dirs ;;;
           mkdir_parents (module_path ++ ["WebApp"; "static"]) ;;;
           acc <~ body (ep_module ep +:+ "/WebApp/static") d acc ;;
           _bind_mounts w rest body acc
     | _ => _bind_mounts w rest body acc
     end).
Proof.
  intros Hload Hbody IH.
  apply keeps_bind_any; [by apply frame_emit|]. intros _.
  destruct (ep_static ep) as [[|d ds]|]; [apply IH| |apply IH].
  apply keeps_bind_any; [by apply frame_emit|]. intros _.
  apply keeps_bind_any; [apply Hbody|]. intros acc1.
  destruct (negb _); [apply frame_raise|].
  apply keeps_bind_any; [by apply frame_emit|]. intros _.
  apply keeps_bind_any; [apply frame_mkdir_parents|]. intros _.
  apply keeps_bind_any; [apply Hbody|]. intros acc2. apply IH.
Qed.

Lemma frame_bind_mounts :
  (∀ m, allowed (Load m)) → loop_keeps (framed TP AP) w.
Proof.
  intros Hload A eps body acc Hbody. revert acc.
  induction eps as [|ep eps IH]; intros acc; [apply frame_ret|].
  cbn [_bind_mounts]. apply keeps_bind_any; [apply frame_pkg_name|]. intros pkg.
  destruct (String.eqb pkg (ep_module ep)); [apply IH|].
  by apply frame_entry.
Qed.

Lemma frame_docker_args :
  loop_keeps (framed TP AP) w → keeps (framed TP AP) (_docker_args w).
Proof.
  intros Hloop. unfold _docker_args. apply keeps_bind_any.
  { apply Hloop. intros name path acc. apply frame_ret. }
  intros cmd. apply keeps_bind_any; [apply frame_ret|]. intros path.
  apply keeps_bind_any; [apply frame_pkg_name|]. intros pkg1.
  apply keeps_bind_any; [apply frame_pkg_name|]. intros pkg2. apply frame_ret.
Qed.

Lemma frame_singularity_args :
  loop_keeps (framed TP AP) w →
  allowed (MkTemp (mkdtemp w)) → ok_attr "_tmpdir" →
  keeps (framed TP AP) (_singularity_args w).
Proof.
  intros Hloop Htmp Hattr. unfold _singularity_args. apply keeps_bind_any.
  { unfold TemporaryDirectory.
    apply keeps_bind_any; [by apply frame_emit|]. intros _.
    apply keeps_bind_any; [apply frame_add_dirs|intros _; apply frame_ret]. }
  intros t. apply keeps_bind_any; [by apply frame_setattr|]. intros _.
  apply keeps_bind_any.
  { apply Hloop. intros name path acc.
    apply keeps_bind_any; [apply frame_mkdir_parents|intros _; apply frame_ret]. }
  intros cmd. apply keeps_bind_any; [apply frame_pkg_name|]. intros pkg.
  apply keeps_bind_any; [apply frame_mkdir|]. intros _.
  apply keeps_bind_any; [apply frame_ret|]. intros path.
  apply keeps_bind_any; [apply frame_pkg_name|]. intros pkg1.
  apply keeps_bind_any; [apply frame_pkg_name|]. intros pkg2. apply frame_ret.
Qed.

Lemma frame_find_exe exes : keeps (framed TP AP) (find_exe w exes).
Proof.
  induction exes as [|exe exes IH]; [apply frame_raise|]. cbn [find_exe].
  apply keeps_bind_any; [by apply frame_setattr|]. intros _.
  apply keeps_bind_any.
  { apply keeps_bind_any; [by apply frame_emit|intros _; apply frame_ret]. }
  intros [p|]; [apply frame_ret|apply IH].
Qed.

Lemma frame_cmd :
  loop_keeps (framed TP AP) w →
  allowed (MkTemp (mkdtemp w)) → ok_attr "_tmpdir" →
  keeps (framed TP AP) (_cmd w).
Proof.
  intros Hloop Htmp Hattr. unfold _cmd.
  apply keeps_bind_any; [apply frame_find_exe|]. intros full_exe.
  apply keeps_bind_any.
  { intros st H. unfold getattr. by destruct (attrs st !! "_exe"). }
  intros v. apply keeps_bind_any.
  { destruct v; [apply frame_ret|apply frame_raise]. }
  intros exe. apply keeps_bind_any.
  { destruct (String.eqb exe "docker"); [by apply frame_docker_args|].
    destruct (String.eqb exe "singularity");
      [by apply frame_singularity_args|apply frame_raise]. }
  intros args. apply keeps_bind_any; [apply frame_pkg_name|].
  intros pkg. apply frame_ret.
Qed.

(** With docker on the search path, [_cmd] does not come near the
    singularity variant. *)
Lemma frame_cmd_docker p :
  which w "docker" = Some p →
  loop_keeps (framed TP AP) w → keeps (framed TP AP) (_cmd w).
Proof.
  intros Hd Hloop st H. rewrite (cmd_docker w st p Hd).
  assert (framed TP AP (selected "docker" ["docker"] st)) as Hsel.
  { destruct H as [H1 H2]. split; simpl; [by apply TP_snoc|by apply AP_insert]. }
  revert Hsel. generalize (selected "docker" ["docker"] st).
  apply keeps_bind_any; [by apply frame_docker_args|]. intros args.
  apply keeps_bind_any; [apply frame_pkg_name|]. intros pkg. apply frame_ret.
Qed.

Lemma frame_run :
  keeps (framed TP AP) (_cmd w) →
  (∀ fmt args, allowed (LogWarn fmt args)) → (∀ cmd, allowed (Spawn cmd)) →
  keeps (framed TP AP) (run w).
Proof.
  intros Hcmd Hwarn Hspawn. unfold run.
  destruct (bool_decide _); [by apply frame_emit|].
  apply keeps_bind_any; [done|]. intros cmd.
  apply keeps_bind_any; [by apply frame_emit|]. intros _.
  apply keeps_bind_any; [by apply frame_emit|]. intros _.
  destruct (Z.eqb _ _); [apply frame_ret|apply frame_raise].
Qed.
End Frame.

Lemma without_snoc bad ev t :
  bad ev = false → without bad t → without bad (t ++ [ev]).
Proof. intros Hev Ht. apply Forall_app. split; [done|by constructor]. Qed.

(** The generator loads no entry of the package under build. *)
Lemma own_entry_loop w pkg :
  top_level w = [pkg] →
  loop_keeps (framed (λ t, Load pkg ∉ t) (λ a, a !! "__name" = None)) w.
Proof.
  intros Hpkg A eps body acc Hbody. revert acc.
  induction eps as [|ep eps IH]; intros acc; [by intros st H|].
  intros st H. cbn [_bind_mounts].
  rewrite (bind_Ok _ _ _ _ _ (pkg_name_ok w pkg st (proj2 H) Hpkg)).
  assert (framed (λ t, Load pkg ∉ t) (λ a, a !! "__name" = None) (named pkg st))
    as Hnamed.
  { destruct H as [H1 H2]. split; [done|]. simpl. by rewrite lookup_insert_ne. }
  cbv beta.
  destruct (String.eqb_spec pkg (ep_module ep)) as [Heq|Hne];
    [apply IH; exact Hnamed|].
  revert Hnamed. generalize (named pkg st).
  apply (frame_entry w (λ t, Load pkg ∉ t) (λ a, a !! "__name" = None)
           (λ ev, ev ≠ Load pkg)); try done.
  - intros ev t Hev Ht [Hin|Hin]%elem_of_app; [done|].
    by apply list_elem_of_singleton in Hin.
  - intros [= Heq]. by apply Hne.
Qed.

(** X1.  When [_cmd] raises, for want of an executable or in the synthesis
    of the arguments, [run] raises the same exception and no child has been
    started. *)
Theorem failed_synthesis_starts_no_child w st e :
  "DIRAC_WEBAPP_NO_COMPILE" ∉ environ w →
  without is_spawn (trace st) →
  (_cmd w st).1 = Raise e →
  (run w st).1 = Raise e ∧ without is_spawn (trace (run w st).2).
Proof.
  intros Hskip Ht He. rewrite (run_not_skipped w st Hskip).
  assert (framed (without is_spawn) (λ _, True) (_cmd w st).2) as [Hc _].
  { apply (frame_cmd w (without is_spawn) (λ _, True)
             (λ ev, is_spawn ev = false) (λ _, True)); try done.
    - intros ev t. apply without_snoc.
    - apply (frame_bind_mounts w _ _ (λ ev, is_spawn ev = false) (λ _, True));
        try done.
      intros ev t. apply without_snoc. }
  destruct (_cmd w st) as [[cmd|e'] st1] eqn:E; simpl in He; [done|].
  injection He as ->. by rewrite (bind_Raise _ _ _ _ _ E).
Qed.

Lemma failed_synthesis_starts_no_child_witness :
  (run (two_dirs_host "pluginX") init).1
  = Raise (NotImplementedError (PList ["/srv/www/static"; "/srv/www/extra"]))
  ∧ without is_spawn (trace (run (two_dirs_host "pluginX") init).2).
Proof.
  apply (failed_synthesis_starts_no_child (two_dirs_host "pluginX") init).
  - apply (bool_decide_unpack _). vm_compute. exact I.
  - constructor.
  - vm_compute. reflexivity.
Defined.

(** X2.  With docker on the search path, [run] makes no temporary directory
    and leaves the command without a [_tmpdir] attribute, whatever the
    outcome. *)
Theorem docker_makes_no_staging_directory w st p :
  which w "docker" = Some p →
  attrs st !! "_tmpdir" = None → without is_mktemp (trace st) →
  attrs (run w st).2 !! "_tmpdir" = None
  ∧ without is_mktemp (trace (run w st).2).
Proof.
  intros Hd Ha Ht.
  assert (framed (without is_mktemp) (λ a, a !! "_tmpdir" = None) (run w st).2)
    as [H1 H2]; [|done].
  assert (∀ ev t, is_mktemp ev = false →
            without is_mktemp t → without is_mktemp (t ++ [ev])) as Hsnoc
    by (intros ev t; apply without_snoc).
  assert (∀ n v (a : gmap string value), n ≠ "_tmpdir" →
            a !! "_tmpdir" = None → <[n:=v]> a !! "_tmpdir" = None) as Hins
    by (intros n v a Hn Hs; by rewrite lookup_insert_ne).
  apply (frame_run w (without is_mktemp) (λ a, a !! "_tmpdir" = None)
           (λ ev, is_mktemp ev = false)); try done.
  apply (frame_cmd_docker w _ _ (λ ev, is_mktemp ev = false)
           (λ n, n ≠ "_tmpdir") Hsnoc Hins) with (p := p); try done.
  by apply (frame_bind_mounts w _ _ (λ ev, is_mktemp ev = false)
              (λ n, n ≠ "_tmpdir") Hsnoc Hins).
Qed.

Lemma docker_makes_no_staging_directory_witness :
  attrs (run docker_host init).2 !! "_tmpdir" = None
  ∧ without is_mktemp (trace (run docker_host init).2).
Proof.
  apply (docker_makes_no_staging_directory docker_host init "/usr/bin/docker").
  - vm_compute. reflexivity.
  - reflexivity.
  - constructor.
Defined.

(** X3.  The entry point of the package under build is skipped before it is
    loaded: whatever the variant and the outcome, [run] never calls
    [entrypoint.load()] for the module that bears the package's name. *)
Theorem own_entry_never_loaded w pkg st :
  unnamed st → top_level w = [pkg] →
  Load pkg ∉ trace st → Load pkg ∉ trace (run w st).2.
Proof.
  intros Hst Hpkg Ht.
  assert (framed (λ t, Load pkg ∉ t) (λ a, a !! "__name" = None) (run w st).2)
    as [H1 H2]; [|done].
  assert (∀ ev t, ev ≠ Load pkg → Load pkg ∉ t → Load pkg ∉ t ++ [ev]) as Hsnoc.
  { intros ev t Hev Hnin [Hin|Hin]%elem_of_app; [done|].
    by apply list_elem_of_singleton in Hin. }
  assert (∀ n v (a : gmap string value), n ≠ "__name" →
            a !! "__name" = None → <[n:=v]> a !! "__name" = None) as Hins
    by (intros n v a Hn Hs; by rewrite lookup_insert_ne).
  apply (frame_run w (λ t, Load pkg ∉ t) (λ a, a !! "__name" = None)
           (λ ev, ev ≠ Load pkg)); try done.
  apply (frame_cmd w _ _ (λ ev, ev ≠ Load pkg) (λ n, n ≠ "__name") Hsnoc Hins);
    try done.
  by apply own_entry_loop.
Qed.

Lemma own_entry_never_loaded_witness :
  Load "mypkg" ∉ trace (run many_plugins init).2.
Proof.
  apply (own_entry_never_loaded many_plugins "mypkg" init).
  - reflexivity.
  - reflexivity.
  - apply not_elem_of_nil.
Defined.

(** ** The directories the generator and its callers make *)

Lemma prefix_in_with_parents (q p : Path) :
  q ≠ [] → q `prefix_of` p → q ∈ with_parents p.
Proof.
  intros Hq [k ->]. unfold with_parents. apply list_elem_of_fmap.
  exists (length q). split; [by rewrite take_app_length|].
  apply elem_of_seq. rewrite length_app. destruct q; [done|simpl; lia].
Qed.

Section Created.
Context {B : Type}.
Variables (w : World) (pkg : string).
Variable g : string → string → B.
Variable body : string → string → list B → M (list B).
Variable Q : string → State → Prop.

Hypothesis Hpkg : top_level w = [pkg].
Hypothesis Q_mono : ∀ name s s', Q name s → fs s ⊆ fs s' → Q name s'.
Hypothesis body_makes : ∀ name path acc st, unnamed st →
  ∃ st', body name path acc st = (Ok (acc ++ [g name path]), st')
         ∧ unnamed st' ∧ fs st ⊆ fs st' ∧ Q name st'.

(** After the loop, what the body established for every yielded name still
    holds, and the static directory of every contribution exists with its
    ancestors. *)
Lemma bind_mounts_makes eps :
  Forall single_static (List.filter (contributes pkg) eps) →
  ∀ acc st, unnamed st →
    ∃ st', _bind_mounts w eps body acc st =
             (Ok (acc ++ flat_map (yields_of g) (List.filter (contributes pkg) eps)),
              st')
           ∧ unnamed st' ∧ fs st ⊆ fs st'
           ∧ Forall (λ ep, Q (ep_module ep) st'
                           ∧ Q (ep_module ep +:+ "/WebApp/static") st'
                           ∧ ∀ q, q ∈ with_parents
                                        (ep_module_path ep ++ ["WebApp"; "static"]) →
                                  q ∈ fs st')
               (List.filter (contributes pkg) eps).
Proof.
  induction eps as [|ep rest IH]; intros Hone acc st Hst.
  { exists st. simpl. rewrite app_nil_r. by repeat split. }
  simpl in Hone. cbn [List.filter]. destruct (contributes pkg ep) eqn:Hc.
  - apply Forall_cons in Hone as [[d Hd] Hone].
    apply andb_true_iff in Hc as [Hne _]. apply negb_true_iff in Hne.
    cbn [_bind_mounts].
    rewrite (bind_Ok _ _ _ _ _ (pkg_name_ok w pkg st Hst Hpkg)).
    rewrite Hne, bind_emit, Hd. unfold log_info. rewrite bind_emit.
    match goal with |- context [bind (body ?n ?p ?a) _ ?s0] =>
      destruct (body_makes n p a s0) as (st1 & E1 & Hu1 & Hs1 & HQ1);
        [by apply unnamed_named|]
    end.
    rewrite (bind_Ok _ _ _ _ _ E1). cbn [length Nat.eqb negb].
    rewrite bind_emit, (bind_Ok _ _ _ _ _ (mkdir_parents_eq _ _)).
    match goal with |- context [bind (body ?n ?p ?a) _ ?s0] =>
      destruct (body_makes n p a s0) as (st2 & E2 & Hu2 & Hs2 & HQ2);
        [exact Hu1|]
    end.
    rewrite (bind_Ok _ _ _ _ _ E2).
    match goal with |- context [_bind_mounts w rest body ?a st2] =>
      destruct (IH Hone a st2 Hu2) as (st' & E & Hu' & Hs' & Hall)
    end.
    exists st'. simpl in Hs1, Hs2. rewrite E. split; [|split; [done|split]].
    + cbn [flat_map]. unfold yields_of at 2. rewrite Hd.
      by rewrite <- !app_assoc.
    + set_solver.
    + constructor; [|done]. split; [|split].
      * apply (Q_mono _ st1); [done|set_solver].
      * by apply (Q_mono _ st2).
      * intros q Hq. apply Hs', Hs2. simpl.
        by apply elem_of_union_l, elem_of_list_to_set.
  - destruct (bind_mounts_skip w pkg (λ s, unnamed s ∧ fs st ⊆ fs s) body Hpkg
                ltac:(by intros s []) 
                ltac:(intros s []; split; [by apply unnamed_named|done])
                ltac:(by intros t s [])
                ep rest acc st ltac:(done) Hc) as (st1 & [Hu1 Hs1] & ->).
    destruct (IH Hone acc st1 Hu1) as (st' & E & Hu' & Hs' & Hall).
    exists st'. repeat split; [done..|set_solver|done].
Qed.
End Created.

Lemma mkdir_inv p st st' :
  mkdir p st = (Ok tt, st') →
  attrs st' = attrs st ∧ fs st' = list_to_set [p] ∪ fs st.
Proof.
  unfold mkdir. rewrite bind_emit. cbv beta.
  destruct (bool_decide _); [done|]. destruct (bool_decide _); [|done].
  by intros [= <-].
Qed.

(** X4.  With docker on the search path and the arguments synthesized, the
    vector of [_cmd] is the resolved path of the executable, the docker
    arguments, and last the three compiler flags, [-n=] carrying the package
    name. *)
Theorem docker_command_vector w pkg st p :
  unnamed st → top_level w = [pkg] →
  Forall single_static (contributions pkg w) →
  which w "docker" = Some p →
  (_cmd w st).1 =
  Ok ([p; "run"; "--rm"] ++ (bind_flag "-v=" <$> mount_plan w pkg)
        ++ docker_tail w ++ ["-D=/opt"; "-n=" +:+ pkg; "--py3-style"]).
Proof.
  intros Hst Hpkg Hone Hd. rewrite (cmd_docker w st p Hd).
  assert (unnamed (selected "docker" ["docker"] st)) as Hsel.
  { unfold unnamed in *. simpl. by rewrite lookup_insert_ne. }
  destruct (docker_args_ok w pkg _ Hsel Hpkg Hone) as (st1 & E & Hu1 & _).
  rewrite (bind_Ok _ _ _ _ _ E), (bind_Ok _ _ _ _ _ (pkg_name_ok w pkg st1 Hu1 Hpkg)).
  unfold ret. simpl. by rewrite <- !app_assoc.
Qed.

Lemma docker_command_vector_witness :
  (_cmd docker_host init).1 =
  Ok (["/usr/bin/docker"; "run"; "--rm"]
        ++ (bind_flag "-v=" <$> mount_plan docker_host "mypkg")
        ++ docker_tail docker_host ++ ["-D=/opt"; "-n=" +:+ "mypkg"; "--py3-style"]).
Proof.
  apply (docker_command_vector docker_host "mypkg" init "/usr/bin/docker").
  - reflexivity.
  - reflexivity.
  - repeat constructor; eexists; reflexivity.
  - vm_compute. reflexivity.
Defined.

(** X5.  With singularity alone on the search path and the arguments
    synthesized, the vector of [_cmd] is the resolved path of the executable,
    the singularity arguments with the staging directory bound first, and
    last the three compiler flags. *)
Theorem singularity_command_vector w pkg st p :
  unnamed st → top_level w = [pkg] → plain_name pkg →
  Forall single_static (contributions pkg w) →
  Forall (λ ep, plain_name (ep_module ep)) (contributions pkg w) →
  fresh_staging w st →
  which w "docker" = None → which w "singularity" = Some p →
  (_cmd w st).1 =
  Ok ([p; "run"; "--writable"; "--containall";
       "--bind=" +:+ path_str (mkdtemp w) +:+ ":/opt"]
        ++ (bind_flag "--bind=" <$> mount_plan w pkg)
        ++ singularity_tail ++ ["-D=/opt"; "-n=" +:+ pkg; "--py3-style"]).
Proof.
  intros Hst Hpkg Hplain Hone Hmods Hfresh Hd Hs.
  rewrite (cmd_singularity w st p Hd Hs).
  assert (unnamed (selected "singularity" ["docker"; "singularity"] st)) as Hsel.
  { unfold unnamed in *. simpl. by rewrite lookup_insert_ne. }
  destruct (singularity_args_ok w pkg _ Hsel Hpkg Hplain Hone Hmods Hfresh)
    as (st1 & E & Hu1 & _).
  rewrite (bind_Ok _ _ _ _ _ E), (bind_Ok _ _ _ _ _ (pkg_name_ok w pkg st1 Hu1 Hpkg)).
  unfold ret. simpl. by rewrite <- !app_assoc.
Qed.

Lemma singularity_command_vector_witness :
  (_cmd (singularity_host 0) init).1 =
  Ok (["/usr/bin/singularity"; "run"; "--writable"; "--containall";
       "--bind=" +:+ path_str (mkdtemp (singularity_host 0)) +:+ ":/opt"]
        ++ (bind_flag "--bind=" <$> mount_plan (singularity_host 0) "mypkg")
        ++ singularity_tail ++ ["-D=/opt"; "-n=" +:+ "mypkg"; "--py3-style"]).
Proof.
  apply (singularity_command_vector (singularity_host 0) "mypkg" init
           "/usr/bin/singularity").
  - reflexivity.
  - reflexivity.
  - split; reflexivity.
  - repeat constructor; eexists; reflexivity.
  - repeat constructor.
  - split.
    + intros q Hq. by apply not_elem_of_empty in Hq.
    + repeat constructor; intros [k Hk]; discriminate Hk.
  - vm_compute. reflexivity.
  - vm_compute. reflexivity.
Defined.

(** X6.  Synthesizing the docker arguments removes no directory and leaves,
    for every contribution, the directory [WebApp/static] below the plugin's
    module directory in existence, with all its ancestors. *)
Theorem static_directories_made w pkg st :
  unnamed st → top_level w = [pkg] →
  Forall single_static (contributions pkg w) →
  fs st ⊆ fs (_docker_args w st).2
  ∧ Forall (λ ep, ∀ q, q ≠ [] →
              q `prefix_of` ep_module_path ep ++ ["WebApp"; "static"] →
              q ∈ fs (_docker_args w st).2)
      (contributions pkg w).
Proof.
  intros Hst Hpkg Hone. unfold _docker_args.
  edestruct (bind_mounts_makes w pkg
               (λ name path, bind_flag "-v=" (ro_binding name path))
               (λ name path cmd,
                  ret (cmd ++ ["-v=" +:+ path +:+ ":/opt/" +:+ name +:+ ":ro"]))
               (λ _ _, True) Hpkg ltac:(done)
               ltac:(intros name path acc s Hs; by exists s)
               (entry_points w) Hone ["run"; "--rm"] st Hst)
    as (st1 & E & Hu1 & Hs1 & Hall).
  rewrite (bind_Ok _ _ _ _ _ E). unfold _path. rewrite bind_ret.
  rewrite (bind_Ok _ _ _ _ _ (pkg_name_ok w pkg st1 Hu1 Hpkg)).
  rewrite (bind_Ok _ _ _ _ _
             (pkg_name_ok w pkg _ (unnamed_named pkg st1 Hu1) Hpkg)).
  simpl. split; [done|].
  eapply Forall_impl; [exact Hall|]. intros ep (_ & _ & Hq) q Hne Hpre.
  by apply Hq, prefix_in_with_parents.
Qed.

Lemma static_directories_made_witness :
  fs init ⊆ fs (_docker_args many_plugins init).2
  ∧ Forall (λ ep, ∀ q, q ≠ [] →
              q `prefix_of` ep_module_path ep ++ ["WebApp"; "static"] →
              q ∈ fs (_docker_args many_plugins init).2)
      (contributions "mypkg" many_plugins).
Proof.
  apply (static_directories_made many_plugins "mypkg" init).
  - reflexivity.
  - reflexivity.
  - repeat constructor; eexists; reflexivity.
Defined.

(** X7.  When the singularity arguments are synthesized, the staging
    directory holds a placeholder for every binding of the mount plan: the
    directory at the container path of the binding, taken below the staging
    directory, exists. *)
Theorem placeholders_made w pkg st cs :
  unnamed st → top_level w = [pkg] →
  Forall single_static (contributions pkg w) →
  (_singularity_args w st).1 = Ok cs →
  Forall (λ b, is_dir (_singularity_args w st).2
                 (pjoin (mkdtemp w) (container_path b)))
    (mount_plan w pkg).
Proof.
  intros Hst Hpkg Hone. unfold _singularity_args.
  rewrite (bind_Ok _ _ _ _ _ (TemporaryDirectory_eq w st)), bind_setattr.
  set (tmp := mkdtemp w).
  set (body := λ (name path : string) (cmd : list string),
         mkdir_parents (pjoin tmp name) ;;;
         ret (cmd ++ ["--bind=" +:+ path +:+ ":/opt/" +:+ name +:+ ":ro"])).
  match goal with |- (bind (_bind_mounts _ _ _ ?a0) _ ?s0).1 = _ → _ =>
    destruct (bind_mounts_makes w pkg
                (λ name path, bind_flag "--bind=" (ro_binding name path)) body
                (λ name s, is_dir s (pjoin tmp name)) Hpkg) with
      (eps := entry_points w) (acc := a0) (st := s0)
      as (st1 & E & Hu1 & Hs1 & Hall)
  end.
  - intros name s s' [Hq|Hq] Hsub; [by left|right; by apply Hsub].
  - intros name path acc s Hs. unfold body.
    rewrite (bind_Ok _ _ _ _ _ (mkdir_parents_eq _ _)). eexists.
    split; [done|]. split; [done|]. split; [simpl; apply union_subseteq_r|].
    destruct (pjoin tmp name) as [|c q] eqn:Ep; [by left|right].
    cbn [fs set_fs set_trace].
    apply elem_of_union_l, elem_of_list_to_set, prefix_in_with_parents; done.
  - exact Hone.
  - unfold unnamed in *. simpl. by rewrite lookup_insert_ne.
  - rewrite (bind_Ok _ _ _ _ _ E).
    rewrite (bind_Ok _ _ _ _ _ (pkg_name_ok w pkg st1 Hu1 Hpkg)).
    destruct (mkdir (pjoin tmp pkg) (named pkg st1)) as [[[]|e] st2] eqn:Em.
    2:{ by rewrite (bind_Raise _ _ _ _ _ Em). }
    rewrite (bind_Ok _ _ _ _ _ Em).
    apply mkdir_inv in Em as [Ha2 Hf2].
    assert (unnamed st2) as Hu2.
    { unfold unnamed. rewrite Ha2. by apply unnamed_named. }
    unfold _path. rewrite bind_ret.
    rewrite (bind_Ok _ _ _ _ _ (pkg_name_ok w pkg st2 Hu2 Hpkg)).
    rewrite (bind_Ok _ _ _ _ _
               (pkg_name_ok w pkg _ (unnamed_named pkg st2 Hu2) Hpkg)).
    intros _. simpl. unfold mount_plan, contributions. apply Forall_app. split.
    + clear E. induction Hall as [|ep eps (H1 & H2 & _) _ IH]; [constructor|].
      cbn [flat_map]. apply Forall_app. split; [|exact IH].
      assert (∀ name, is_dir st1 (pjoin tmp name) →
                is_dir (named pkg (named pkg st2)) (pjoin tmp name)) as Hup.
      { intros name [Hq|Hq]; [by left|right]. simpl. rewrite Hf2.
        by apply elem_of_union_r. }
      unfold yields_of.
      destruct (ep_static ep) as [[|d ds]|]; [apply Forall_nil_2| |apply Forall_nil_2].
      apply Forall_cons. split; [by apply Hup|].
      apply Forall_cons. split; [by apply Hup|apply Forall_nil_2].
    + constructor; [|constructor]. right. simpl. rewrite Hf2.
      apply elem_of_union_l, elem_of_list_to_set. left.
Qed.

Lemma placeholders_made_witness :
  Forall (λ b, is_dir (_singularity_args many_plugins init).2
                 (pjoin (mkdtemp many_plugins) (container_path b)))
    (mount_plan many_plugins "mypkg").
Proof.
  apply (placeholders_made many_plugins "mypkg" init
           (["run"; "--writable"; "--containall"; "--bind=/tmp/tmpq1w2e3:/opt"]
              ++ (bind_flag "--bind=" <$> mount_plan many_plugins "mypkg")
              ++ singularity_tail)).
  - reflexivity.
  - reflexivity.
  - repeat constructor; eexists; reflexivity.
  - vm_compute. reflexivity.
Defined.

(** X8.  On a command without an attribute [__name], reading [_pkg_name]
    returns [pkg] exactly when [pkg] is the one entry of the distribution's
    packages without a dot, repetitions counted; such a name is one of the
    packages, and reading it touches neither the file system nor the trace. *)
Theorem pkg_name_returns_iff w st pkg :
  unnamed st →
  ((_pkg_name w st).1 = Ok pkg ↔ top_level w = [pkg])
  ∧ ((_pkg_name w st).1 = Ok pkg →
       pkg ∈ packages w ∧ str_contains "." pkg = false)
  ∧ fs (_pkg_name w st).2 = fs st ∧ trace (_pkg_name w st).2 = trace st.
Proof.
  intros Hst.
  assert ((_pkg_name w st).1 = Ok pkg → top_level w = [pkg]) as Hto.
  { intros H. destruct (decide (length (top_level w) = 1%nat)) as [Hl|Hl].
    - destruct (top_level w) as [|x [|y l]] eqn:E; try done.
      rewrite (pkg_name_ok w x st Hst E) in H. by injection H as ->.
    - by rewrite (pkg_name_fail w st Hst Hl) in H. }
  split; [split; [done|]|split].
  - intros H. by rewrite (pkg_name_ok w pkg st Hst H).
  - intros H%Hto. assert (pkg ∈ top_level w) as Hin by (rewrite H; left).
    unfold top_level in Hin. apply list_elem_of_In, filter_In in Hin as [Hin Hdot].
    split; [by apply list_elem_of_In|by apply negb_true_iff].
  - destruct (decide (length (top_level w) = 1%nat)) as [Hl|Hl].
    + destruct (top_level w) as [|x [|y l]] eqn:E; try done.
      by rewrite (pkg_name_ok w x st Hst E).
    + by rewrite (pkg_name_fail w st Hst Hl).
Qed.

Lemma pkg_name_returns_iff_witness :
  ((_pkg_name docker_host init).1 = Ok "mypkg" ↔ top_level docker_host = ["mypkg"])
  ∧ ((_pkg_name docker_host init).1 = Ok "mypkg" →
       "mypkg" ∈ packages docker_host ∧ str_contains "." "mypkg" = false)
  ∧ fs (_pkg_name docker_host init).2 = fs init
  ∧ trace (_pkg_name docker_host init).2 = trace init.
Proof. apply (pkg_name_returns_iff docker_host init "mypkg"). reflexivity. Defined.

Lemma find_exe_first_state w pre exe post p st :
  Forall (λ e, which w e = None) pre → which w exe = Some p →
  find_exe w (pre ++ exe :: post) st
  = (Ok p, selected exe (pre ++ [exe]) st).
Proof.
  intros Hpre Hexe. revert st.
  induction Hpre as [|e pre He _ IH]; intros st; cbn [app find_exe].
  - rewrite bind_setattr, bind_which, Hexe. reflexivity.
  - rewrite bind_setattr, bind_which, He, IH.
    unfold selected, set_trace, set_attrs. simpl.
    by rewrite insert_insert_eq, <- app_assoc.
Qed.

Lemma find_exe_none_state w exes st :
  Forall (λ e, which w e = None) exes →
  (find_exe w exes st).1
  = Raise (NotImplementedError (PStr "Unable to find a suitable command"))
  ∧ trace (find_exe w exes st).2 = trace st ++ (Which <$> exes)
  ∧ fs (find_exe w exes st).2 = fs st.
Proof.
  intros Hall. revert st.
  induction Hall as [|e exes He _ IH]; intros st; cbn [find_exe].
  - simpl. by rewrite app_nil_r.
  - rewrite bind_setattr, bind_which, He.
    destruct (IH (set_trace (trace (set_attrs (<["_exe":=VStr e]> (attrs st)) st)
                               ++ [Which e])
                    (set_attrs (<["_exe":=VStr e]> (attrs st)) st)))
      as (H1 & H2 & H3).
    rewrite H1, H2, H3. simpl. by rewrite <- app_assoc.
Qed.

(** X9.  The loop that selects the executable, for any list of candidates:
    it stops at the first one [shutil.which] resolves, returns its path,
    leaves its name in [_exe] and has probed the candidates up to it and no
    further; when none resolves it raises after probing them all.  It never
    touches the file system. *)
Theorem find_exe_first w pre exe post p st :
  Forall (λ e, which w e = None) pre → which w exe = Some p →
  let r := find_exe w (pre ++ exe :: post) st in
  r.1 = Ok p
  ∧ attrs r.2 !! "_exe" = Some (VStr exe)
  ∧ trace r.2 = trace st ++ (Which <$> pre ++ [exe])
  ∧ fs r.2 = fs st
  ∧ ((find_exe w pre st).1
     = Raise (NotImplementedError (PStr "Unable to find a suitable command"))).
Proof.
  intros Hpre Hexe r. subst r.
  rewrite (find_exe_first_state w pre exe post p st Hpre Hexe). simpl.
  rewrite lookup_insert_eq. repeat split.
  by apply find_exe_none_state.
Qed.

Lemma find_exe_first_witness :
  let r := find_exe (singularity_host 0) (["docker"] ++ "singularity" :: ["podman"])
             init in
  r.1 = Ok "/usr/bin/singularity"
  ∧ attrs r.2 !! "_exe" = Some (VStr "singularity")
  ∧ trace r.2 = trace init ++ (Which <$> ["docker"] ++ ["singularity"])
  ∧ fs r.2 = fs init
  ∧ ((find_exe (singularity_host 0) ["docker"] init).1
     = Raise (NotImplementedError (PStr "Unable to find a suitable command"))).
Proof.
  apply (find_exe_first (singularity_host 0) ["docker"] "singularity" ["podman"]
           "/usr/bin/singularity" init).
  - repeat constructor.
  - vm_compute. reflexivity.
Defined.

(** ** Dictionaries *)

Lemma lookup_dict_set k k' v d :
  dict_lookup k' (dict_set k v d)
  = if String.eqb k' k then Some v else dict_lookup k' d.
Proof.
  induction d as [|[k0 v0] d IH]; csimpl.
  - by destruct (String.eqb k' k).
  - destruct (String.eqb_spec k k0) as [->|Hne]; csimpl.
    + by destruct (String.eqb k' k0).
    + rewrite IH. destruct (String.eqb_spec k' k0) as [->|]; [|done].
      by rewrite (proj2 (String.eqb_neq k0 k)).
Qed.

Lemma lookup_dict_app k d d' :
  dict_lookup k (d ++ d')
  = match dict_lookup k d with Some v => Some v | None => dict_lookup k d' end.
Proof.
  induction d as [|[k0 v0] d IH]; csimpl; [done|].
  by destruct (String.eqb k k0).
Qed.

Lemma lookup_None_keys k d : dict_lookup k d = None ↔ k ∉ d.*1.
Proof.
  induction d as [|[k0 v0] d IH]; csimpl.
  - split; [intros _; apply not_elem_of_nil|done].
  - rewrite not_elem_of_cons. destruct (String.eqb_spec k k0) as [->|Hne].
    + split; [done|]. by intros [? _].
    + rewrite IH. tauto.
Qed.

Lemma keys_dict_set k v d :
  (dict_set k v d).*1
  = match dict_lookup k d with Some _ => d.*1 | None => d.*1 ++ [k] end.
Proof.
  induction d as [|[k0 v0] d IH]; csimpl; [done|].
  destruct (String.eqb_spec k k0) as [->|Hne]; csimpl; [done|].
  rewrite IH. by destruct (dict_lookup k d).
Qed.

Lemma dict_set_absent k v d :
  dict_lookup k d = None → dict_set k v d = d ++ [(k, v)].
Proof.
  induction d as [|[k0 v0] d IH]; csimpl; [done|].
  destruct (String.eqb k k0); [done|]. intros H. by rewrite IH.
Qed.

Lemma lookup_iadd_item k k' xs d :
  dict_lookup k' (iadd_item k xs d)
  = if String.eqb k' k then Some (default [] (dict_lookup k d) ++ xs)
    else dict_lookup k' d.
Proof.
  unfold iadd_item, getitem_default.
  destruct (dict_lookup k d) as [v|] eqn:E; rewrite lookup_dict_set; csimpl.
  - done.
  - destruct (String.eqb_spec k' k) as [->|Hne]; [done|].
    rewrite lookup_dict_app. csimpl.
    rewrite (proj2 (String.eqb_neq k' k) Hne). by destruct (dict_lookup k' d).
Qed.

Lemma keys_iadd_item k xs d :
  (iadd_item k xs d).*1
  = match dict_lookup k d with Some _ => d.*1 | None => d.*1 ++ [k] end.
Proof.
  unfold iadd_item, getitem_default.
  destruct (dict_lookup k d) as [v|] eqn:E; rewrite keys_dict_set.
  - by rewrite E.
  - rewrite lookup_dict_app, E. csimpl. rewrite String.eqb_refl.
    by rewrite fmap_app.
Qed.

Lemma NoDup_keys_dict_set k v d : NoDup d.*1 → NoDup (dict_set k v d).*1.
Proof.
  intros Hd. rewrite keys_dict_set.
  destruct (dict_lookup k d) eqn:E; [done|].
  apply NoDup_app. split; [done|]. split; [|apply NoDup_singleton].
  intros x Hx ->%list_elem_of_singleton. by apply lookup_None_keys in E.
Qed.

Lemma NoDup_keys_iadd_item k xs d : NoDup d.*1 → NoDup (iadd_item k xs d).*1.
Proof.
  intros Hd. rewrite keys_iadd_item.
  destruct (dict_lookup k d) eqn:E; [done|].
  apply NoDup_app. split; [done|]. split; [|apply NoDup_singleton].
  intros x Hx ->%list_elem_of_singleton. by apply lookup_None_keys in E.
Qed.

Lemma NoDup_keys_dict_update d other :
  NoDup d.*1 → NoDup (dict_update d other).*1.
Proof.
  unfold dict_update. revert d.
  induction other as [|[k v] other IH]; intros d Hd; csimpl; [done|].
  by apply IH, NoDup_keys_dict_set.
Qed.

(** Updating with pairs whose keys are new and distinct appends them. *)
Lemma dict_update_fresh d other :
  NoDup (d ++ other).*1 → dict_update d other = d ++ other.
Proof.
  unfold dict_update. revert d.
  induction other as [|[k v] other IH]; intros d Hd; csimpl.
  - by rewrite app_nil_r.
  - rewrite dict_set_absent.
    + rewrite IH; [by rewrite <- app_assoc|]. by rewrite <- app_assoc.
    + apply lookup_None_keys. rewrite fmap_app in Hd. csimpl in Hd.
      apply NoDup_app in Hd as (_ & Hd & _). intros Hk.
      apply (Hd k Hk). left.
Qed.

Lemma dict_update_empty d : NoDup d.*1 → dict_update [] d = d.
Proof. intros Hd. by apply (dict_update_fresh [] d). Qed.

Lemma listed_dict_set k v d :
  (listed (dict_set k v d) + length (default [] (dict_lookup k d))
   = listed d + length v)%nat.
Proof.
  unfold listed. induction d as [|[k0 v0] d IH]; csimpl.
  - rewrite app_nil_r. lia.
  - destruct (String.eqb k k0); csimpl; rewrite !length_app; lia.
Qed.

Lemma listed_iadd_item k xs d :
  listed (iadd_item k xs d) = (listed d + length xs)%nat.
Proof.
  unfold iadd_item, getitem_default.
  destruct (dict_lookup k d) as [v|] eqn:E.
  - pose proof (listed_dict_set k (v ++ xs) d) as H. rewrite E in H.
    csimpl in H. rewrite length_app in H. lia.
  - pose proof (listed_dict_set k ([] ++ xs) (d ++ [(k, [])])) as H.
    rewrite lookup_dict_app, E in H. csimpl in H.
    rewrite String.eqb_refl in H. csimpl in H.
    assert (listed (d ++ [(k, [])]) = listed d) as Hl.
    { unfold listed. rewrite fmap_app, concat_app, length_app. csimpl. lia. }
    change ([] ++ xs) with xs. lia.
Qed.

(** ** The listing of data files *)

Lemma find_data_files_fold tree source_dir dest_dir start :
  find_data_files tree source_dir dest_dir start
  = foldl (listing_step source_dir dest_dir)
      (dict_update [] (default [] start)) tree.
Proof. reflexivity. Qed.

Lemma extended_app o xs ys : extended (extended o xs) ys = extended o (xs ++ ys).
Proof.
  destruct o as [v|]; csimpl; [by rewrite app_assoc|].
  destruct xs as [|x xs]; csimpl; [by destruct ys|done].
Qed.

Lemma files_under_cons e tree source_dir dest_dir k :
  files_under (e :: tree) source_dir dest_dir k
  = (if e.2 && String.eqb (dest_key dest_dir e.1) k
     then [source_name source_dir e.1] else [])
    ++ files_under tree source_dir dest_dir k.
Proof.
  unfold files_under. destruct e as [rel [|]]; csimpl; [|done].
  by destruct (String.eqb (dest_key dest_dir rel) k).
Qed.

Lemma lookup_listing tree source_dir dest_dir d k :
  dict_lookup k (foldl (listing_step source_dir dest_dir) d tree)
  = extended (dict_lookup k d) (files_under tree source_dir dest_dir k).
Proof.
  revert d. induction tree as [|e tree IH]; intros d; csimpl.
  { destruct (dict_lookup k d); csimpl; [by rewrite app_nil_r|done]. }
  rewrite IH, files_under_cons, <- extended_app. f_equal.
  unfold listing_step. destruct e as [rel [|]]; csimpl.
  - rewrite lookup_iadd_item, (String.eqb_sym k).
    destruct (String.eqb_spec (dest_key dest_dir rel) k) as [->|Hne].
    + by destruct (dict_lookup k d).
    + destruct (dict_lookup k d); csimpl; [by rewrite app_nil_r|done].
  - destruct (dict_lookup k d); csimpl; [by rewrite app_nil_r|done].
Qed.

Lemma keys_listing tree source_dir dest_dir d :
  NoDup d.*1 →
  NoDup (foldl (listing_step source_dir dest_dir) d tree).*1
  ∧ d.*1 `prefix_of` (foldl (listing_step source_dir dest_dir) d tree).*1.
Proof.
  revert d. induction tree as [|e tree IH]; intros d Hd; csimpl; [done|].
  assert (NoDup (listing_step source_dir dest_dir d e).*1
          ∧ d.*1 `prefix_of` (listing_step source_dir dest_dir d e).*1) as [H1 H2].
  { unfold listing_step. destruct e.2; [|done].
    split; [by apply NoDup_keys_iadd_item|]. rewrite keys_iadd_item.
    destruct (dict_lookup _ d); [done|]. by apply prefix_app_r. }
  destruct (IH _ H1) as [H3 H4]. split; [done|]. by etrans.
Qed.

Lemma listed_listing tree source_dir dest_dir d :
  listed (foldl (listing_step source_dir dest_dir) d tree)
  = (listed d + length (List.filter snd tree))%nat.
Proof.
  revert d. induction tree as [|e tree IH]; intros d; csimpl; [lia|].
  rewrite IH. unfold listing_step. destruct e as [rel [|]]; csimpl; [|done].
  rewrite listed_iadd_item. csimpl. lia.
Qed.

Lemma listing_files_only tree source_dir dest_dir d :
  foldl (listing_step source_dir dest_dir) d tree
  = foldl (listing_step source_dir dest_dir) d (List.filter snd tree).
Proof.
  revert d. induction tree as [|[rel [|]] tree IH]; intros d; csimpl; [done|..].
  - apply IH.
  - apply IH.
Qed.

Lemma lookup_dict_update k d other :
  dict_lookup k (dict_update d other)
  = match dict_lookup k (reverse other) with
    | Some v => Some v
    | None => dict_lookup k d
    end.
Proof.
  unfold dict_update. revert d.
  induction other as [|[k0 v0] other IH]; intros d; csimpl; [done|].
  rewrite IH, reverse_cons, lookup_dict_app, lookup_dict_set. csimpl.
  destruct (dict_lookup k (reverse other)); [done|].
  by destruct (String.eqb k k0).
Qed.

Lemma keys_dict_set_add_key k v d : (dict_set k v d).*1 = add_key d.*1 k.
Proof.
  rewrite keys_dict_set. unfold add_key.
  destruct (dict_lookup k d) eqn:E.
  - rewrite bool_decide_eq_true_2; [done|].
    destruct (decide (k ∈ d.*1)) as [|Hn]; [done|].
    apply lookup_None_keys in Hn. congruence.
  - rewrite bool_decide_eq_false_2; [done|]. by apply lookup_None_keys.
Qed.

Lemma keys_iadd_item_add_key k xs d : (iadd_item k xs d).*1 = add_key d.*1 k.
Proof.
  rewrite keys_iadd_item, <- (keys_dict_set_add_key k []), keys_dict_set. done.
Qed.

Lemma keys_dict_update d other :
  (dict_update d other).*1 = foldl add_key d.*1 other.*1.
Proof.
  unfold dict_update. revert d.
  induction other as [|[k v] other IH]; intros d; csimpl; [done|].
  by rewrite IH, keys_dict_set_add_key.
Qed.

Lemma keys_listing_fold tree source_dir dest_dir d :
  (foldl (listing_step source_dir dest_dir) d tree).*1
  = foldl add_key d.*1 (dest_key dest_dir <$> (List.filter snd tree).*1).
Proof.
  revert d. induction tree as [|[rel [|]] tree IH]; intros d; csimpl; [done|..].
  - rewrite IH. unfold listing_step. csimpl. by rewrite keys_iadd_item_add_key.
  - apply IH.
Qed.

Lemma NoDup_keys_find_data_files tree source_dir dest_dir start :
  NoDup (find_data_files tree source_dir dest_dir start).*1.
Proof.
  rewrite find_data_files_fold. apply keys_listing.
  apply NoDup_keys_dict_update. constructor.
Qed.

(** X10.  A key that [start] does not have is given a new list by the
    [defaultdict], which no other key holds: in the list [find_data_files]
    returns it stands with exactly the files of the tree whose destination
    directory it spells, under the names and in the order the walk gives
    them, and it is absent when the walk has no such file. *)
Theorem data_files_new_key_lookup tree source_dir dest_dir start k :
  k ∉ (default [] start).*1 →
  dict_lookup k (find_data_files tree source_dir dest_dir start)
  = match files_under tree source_dir dest_dir k with
    | [] => None
    | files => Some files
    end.
Proof.
  intros Hk. rewrite find_data_files_fold, lookup_listing.
  rewrite lookup_dict_update, (proj2 (lookup_None_keys k [])) by apply not_elem_of_nil.
  rewrite (proj2 (lookup_None_keys k (reverse (default [] start)))).
  - by destruct (files_under tree source_dir dest_dir k).
  - by rewrite fmap_reverse, elem_of_reverse.
Qed.

Lemma data_files_new_key_lookup_witness :
  ("share/www/js" ∉ (default [] (Some earlier_files)).*1)
  ∧ dict_lookup "share/www/js"
      (find_data_files static_tree "src/static" "share/www" (Some earlier_files))
    = Some ["src/static/js/app.js"; "src/static/js/boot.js"].
Proof.
  split.
  - apply (bool_decide_unpack _). vm_compute. exact I.
  - apply (data_files_new_key_lookup static_tree "src/static" "share/www"
             (Some earlier_files) "share/www/js").
    apply (bool_decide_unpack _). vm_compute. exact I.
Defined.

(** X11.  The keys of the list [find_data_files] returns are the keys of
    [start] followed by the keys the walk's files are listed under, each key
    once and at the place where it is first met; the keys are compared as
    the strings they are. *)
Theorem data_files_keys_in_order tree source_dir dest_dir start :
  (find_data_files tree source_dir dest_dir start).*1
  = first_seen ((default [] start).*1
                ++ (dest_key dest_dir <$> (List.filter snd tree).*1))
  ∧ NoDup (find_data_files tree source_dir dest_dir start).*1.
Proof.
  split; [|apply NoDup_keys_find_data_files].
  rewrite find_data_files_fold, keys_listing_fold, keys_dict_update.
  unfold first_seen. by rewrite foldl_app.
Qed.

(** X12.  With a [start] whose keys are distinct, the keys of [start] come
    first in the result and in their order, each with the names it had as
    the beginning of its list; and when the walk finds no file, the result
    is [start] itself. *)
Theorem data_files_start_kept tree source_dir dest_dir start :
  NoDup start.*1 →
  let result := find_data_files tree source_dir dest_dir (Some start) in
  start.*1 `prefix_of` result.*1
  ∧ (∀ k v, dict_lookup k start = Some v →
       ∃ xs, dict_lookup k result = Some (v ++ xs))
  ∧ (Forall (λ e, e.2 = false) tree → result = start).
Proof.
  intros Hs result. subst result. split; [|split].
  - rewrite find_data_files_fold. csimpl. rewrite dict_update_empty by done.
    by apply keys_listing.
  - intros k v Hk. rewrite find_data_files_fold, lookup_listing. csimpl.
    rewrite dict_update_empty by done. rewrite Hk. by eexists.
  - intros Hdirs. rewrite find_data_files_fold. csimpl.
    rewrite dict_update_empty by done.
    induction Hdirs as [|[rel b] tree Hb _ IH]; csimpl; [done|].
    csimpl in Hb. subst b. apply IH.
Qed.

Lemma data_files_start_kept_witness :
  let result :=
    find_data_files static_tree "src/static" "share/www" (Some earlier_files) in
  earlier_files.*1 `prefix_of` result.*1
  ∧ (∀ k v, dict_lookup k earlier_files = Some v →
       ∃ xs, dict_lookup k result = Some (v ++ xs))
  ∧ (Forall (λ e, e.2 = false) static_tree → result = earlier_files).
Proof.
  apply (data_files_start_kept static_tree "src/static" "share/www" earlier_files).
  apply (bool_decide_unpack _). vm_compute. exact I.
Defined.

(** X13.  The directories the walk meets, empty ones too, leave no trace in
    the result: it is the result for the files alone. *)
Theorem data_files_directories_ignored tree source_dir dest_dir start :
  find_data_files tree source_dir dest_dir start
  = find_data_files (List.filter snd tree) source_dir dest_dir start.
Proof. rewrite !find_data_files_fold. apply listing_files_only. Qed.

(** X14.  Without a [start], none or an empty one, every file of the walk is
    listed once: the result lists as many names as the walk has files. *)
Theorem data_files_count_without_start tree source_dir dest_dir start :
  default [] start = [] →
  listed (find_data_files tree source_dir dest_dir start)
  = length (List.filter snd tree).
Proof.
  intros Hs. rewrite find_data_files_fold, listed_listing, Hs. done.
Qed.

Lemma data_files_count_without_start_witness :
  listed (find_data_files static_tree "src/static" "share/www" None)
  = length (List.filter snd static_tree).
Proof.
  apply (data_files_count_without_start static_tree "src/static" "share/www" None).
  reflexivity.
Defined.

(** X15.  Passing the list one call returns as the [start] of a second call
    on the same directories gives what one call gives on the two walks one
    after the other. *)
Theorem data_files_chained tree1 tree2 source_dir dest_dir start :
  find_data_files tree2 source_dir dest_dir
    (Some (find_data_files tree1 source_dir dest_dir start))
  = find_data_files (tree1 ++ tree2) source_dir dest_dir start.
Proof.
  rewrite (find_data_files_fold tree2). csimpl.
  rewrite dict_update_empty by apply NoDup_keys_find_data_files.
  by rewrite !find_data_files_fold, foldl_app.
Qed.
